(** * Synapse AI demo-video generator: a shallow embedding of
    [generate_video.py] and the properties of its layout, colour,
    font-fallback and timeline code.

    Conventions.  A Python [str] is a Rocq [string], one [ascii] per
    character.  Colour codes are read as code points U+0000..U+00FF, and
    [hex_to_rgb] is modelled a second time, in [Uni], on strings of
    arbitrary code points; display texts are carried as their UTF-8
    bytes, which keeps what the program looks at (emptiness and the
    positions of the newline character).  Python integers are [Z].  The one floating-point
    expression of the program is evaluated in IEEE-754 binary64 through
    the Standard Library's [SpecFloat].  A call that can raise returns a
    [result]. *)

From Stdlib Require Import ZArith List String Ascii Bool Lia QArith.
From Stdlib Require Import DecimalString DecimalN DecimalPos.
From Stdlib Require Import Floats.SpecFloat.
Import ListNotations.

Local Open Scope string_scope.
Local Open Scope Z_scope.

(* ===================================================================== *)
(** ** Python runtime: exceptions and results                             *)
(* ===================================================================== *)

Module Py.

(** The exception classes the program can meet.  The first five derive
    from [Exception]; the last two derive from [BaseException] only. *)
Inductive exn_class : Type :=
  | ValueError | TypeError | ZeroDivisionError | OverflowError | OSError
  | KeyboardInterrupt | SystemExit.

Definition derives_from_Exception (c : exn_class) : bool :=
  match c with
  | KeyboardInterrupt | SystemExit => false
  | _ => true
  end.

Record exn : Type := mkExn { exn_cls : exn_class; exn_msg : string }.

Inductive result (A : Type) : Type :=
  | Ok (a : A)
  | Raise (e : exn).
Arguments Ok {A} a.
Arguments Raise {A} e.

Definition rbind {A B} (r : result A) (k : A -> result B) : result B :=
  match r with
  | Ok a => k a
  | Raise e => Raise e
  end.

Definition is_ok {A} (r : result A) : bool :=
  match r with Ok _ => true | Raise _ => false end.

(* --------------------------------------------------------------------- *)
(** *** Strings                                                           *)

(** [s.lstrip(ch)]: drop every leading occurrence of [ch]. *)
Fixpoint lstrip (ch : ascii) (s : string) : string :=
  match s with
  | String c s' => if Ascii.eqb c ch then lstrip ch s' else s
  | EmptyString => EmptyString
  end.

(** [s[i:j]] for [0 <= i <= j]; like Python, a slice that runs past the
    end is cut short and never raises. *)
Definition slice (s : string) (i j : nat) : string := substring i (j - i) s.

(** [s.split(sep)] for a one-character separator: the pieces between
    occurrences of [sep], always at least one piece. *)
Fixpoint split (sep : ascii) (s : string) : list string :=
  match s with
  | EmptyString => [EmptyString]
  | String c s' =>
      if Ascii.eqb c sep then EmptyString :: split sep s'
      else match split sep s' with
           | piece :: rest => String c piece :: rest
           | [] => [String c EmptyString]
           end
  end.

(** Truth value of a string: non-empty. *)
Definition truthy (s : string) : bool :=
  match s with EmptyString => false | _ => true end.

(* --------------------------------------------------------------------- *)
(** *** [int(s, 16)]                                                      *)

Definition code (c : ascii) : Z := Z.of_N (N_of_ascii c).

(** What a character is to [int]: a blank (the ASCII blanks, and NEL and
    NBSP, which the conversion turns into a blank before parsing), a sign,
    an underscore, a hex digit with its value, the letter of the [0x]
    prefix, or anything else. *)
Inductive char_kind : Type :=
  | Blank
  | Sign (negative : bool)
  | Underscore
  | Digit (d : Z)
  | LetterX
  | Other.

Definition kind (c : ascii) : char_kind :=
  let n := code c in
  if ((9 <=? n) && (n <=? 13)) || (n =? 32) || (n =? 133) || (n =? 160)
  then Blank
  else if n =? 43 then Sign false
  else if n =? 45 then Sign true
  else if n =? 95 then Underscore
  else if (48 <=? n) && (n <=? 57) then Digit (n - 48)
  else if (65 <=? n) && (n <=? 70) then Digit (n - 55)
  else if (97 <=? n) && (n <=? 102) then Digit (n - 87)
  else if (n =? 120) || (n =? 88) then LetterX
  else Other.

Definition is_space (c : ascii) : bool :=
  match kind c with Blank => true | _ => false end.

Definition is_sign (c : ascii) : bool :=
  match kind c with Sign _ => true | _ => false end.

Definition digit_value (c : ascii) : option Z :=
  match kind c with Digit d => Some d | _ => None end.

Definition is_hex_digit (c : ascii) : bool :=
  match digit_value c with Some _ => true | None => false end.

Fixpoint skip_spaces (l : list char_kind) : list char_kind :=
  match l with
  | Blank :: l' => skip_spaces l'
  | _ => l
  end.

(** The digit loop: hex digits with single underscores between them.
    Returns the value read, the number of digits and what is left;
    [None] on a doubled or trailing underscore. *)
Fixpoint scan_digits (l : list char_kind) (acc : Z) (ndigits : nat)
         (prev_underscore : bool) : option (Z * nat * list char_kind) :=
  match l with
  | Underscore :: l' =>
      if prev_underscore then None else scan_digits l' acc ndigits true
  | Digit d :: l' => scan_digits l' (16 * acc + d) (S ndigits) false
  | _ => if prev_underscore then None else Some (acc, ndigits, l)
  end.

(** An optional [0x]/[0X] prefix, followed by at most one underscore. *)
Definition skip_prefix (l : list char_kind) : list char_kind :=
  match l with
  | Digit 0 :: LetterX :: Underscore :: l' => l'
  | Digit 0 :: LetterX :: l' => l'
  | _ => l
  end.

(** [repr(s)], for code points below 256.  The string is quoted with
    single quotes, unless it holds a single quote and no double quote.
    The quote in use and the backslash are escaped with a backslash; tab,
    line feed and carriage return have their letters; the other characters
    that do not print (the controls, DEL, U+0080..U+00A0 and the soft
    hyphen U+00AD) are written [\xhh], in lower case. *)
Definition single_quote : ascii := "'"%char.
Definition double_quote : ascii := "034"%char.
Definition backslash : ascii := "\"%char.

Definition printable (c : ascii) : bool :=
  let n := code c in
  ((32 <=? n) && (n <=? 126))
  || ((161 <=? n) && (n <=? 255) && negb (n =? 173)).

Definition lower_hex (d : Z) : ascii :=
  if d <? 10 then ascii_of_N (Z.to_N (48 + d))
  else ascii_of_N (Z.to_N (87 + d)).

Definition repr_char (quote c : ascii) : string :=
  let n := code c in
  if Ascii.eqb c quote || Ascii.eqb c backslash
  then String backslash (String c EmptyString)
  else if n =? 9 then "\t"
  else if n =? 10 then "\n"
  else if n =? 13 then "\r"
  else if printable c then String c EmptyString
  else String backslash
         (String "x" (String (lower_hex (n / 16))
                             (String (lower_hex (n mod 16)) EmptyString))).

Definition contains (c : ascii) (s : string) : bool :=
  existsb (Ascii.eqb c) (list_ascii_of_string s).

Definition repr (s : string) : string :=
  let quote :=
    if contains single_quote s && negb (contains double_quote s)
    then double_quote else single_quote in
  String quote
    (concat EmptyString (map (repr_char quote) (list_ascii_of_string s))
     ++ String quote EmptyString).

(** The error of [int]: the message holds the first 200 characters of
    the [repr] of the string. *)
Definition invalid_literal (s : string) : exn :=
  mkExn ValueError
        ("invalid literal for int() with base 16: "
         ++ substring 0 200 (repr s)).

(** The parser proper, on classified characters: blanks, an optional
    sign, an optional prefix, digits, blanks, end of string. *)
Definition parse16 (l : list char_kind) : option Z :=
  let l0 := skip_spaces l in
  let '(neg, l1) :=
    match l0 with
    | Sign negative :: l' => (negative, l')
    | _ => (false, l0)
    end in
  match skip_prefix l1 with
  | [] => None
  | Underscore :: _ => None
  | l2 =>
      match scan_digits l2 0 0%nat false with
      | Some (v, S _, rest) =>
          match skip_spaces rest with
          | [] => Some (if neg then - v else v)
          | _ :: _ => None
          end
      | _ => None
      end
  end.

(** [int(s, 16)]. *)
Definition int16 (s : string) : result Z :=
  match parse16 (map kind (list_ascii_of_string s)) with
  | Some v => Ok v
  | None => Raise (invalid_literal s)
  end.

(* --------------------------------------------------------------------- *)
(** *** Formatting integers

    [f"{n:,}"]: decimal digits with a comma between groups of three. *)

Fixpoint commas_rev (rev_digits : list ascii) (k : nat) : list ascii :=
  match rev_digits with
  | [] => []
  | d :: r =>
      if (k =? 3)%nat then ","%char :: d :: commas_rev r 1
      else d :: commas_rev r (S k)
  end.

Definition decimal (n : Z) : string :=
  DecimalString.NilZero.string_of_uint (N.to_uint (Z.to_N n)).

Definition format_commas (n : Z) : string :=
  let body :=
    string_of_list_ascii
      (rev (commas_rev (rev (list_ascii_of_string (decimal (Z.abs n)))) 0)) in
  if n <? 0 then "-" ++ body else body.

(* --------------------------------------------------------------------- *)
(** *** Floats: IEEE-754 binary64                                         *)

Definition prec : Z := 53.
Definition emax : Z := 1024.

Definition float : Type := spec_float.

(** [float(n)], exact for [|n| <= 2^53], correctly rounded otherwise. *)
Definition float_of_int (n : Z) : float := binary_normalize prec emax n 0 false.

(** [a / b] on integers (true division). *)
Definition truediv (a b : Z) : result float :=
  if b =? 0 then Raise (mkExn ZeroDivisionError "division by zero")
  else Ok (SFdiv prec emax (float_of_int a) (float_of_int b)).

(** [x * n] for a float and an integer. *)
Definition fmul_int (x : float) (n : Z) : float :=
  SFmul prec emax x (float_of_int n).

(** [int(x)]: truncation toward zero (the mantissa shifted by the
    exponent, which drops the fractional bits when the exponent is
    negative); infinities and NaN raise. *)
Definition int_of_float (x : float) : result Z :=
  match x with
  | S754_zero _ => Ok 0
  | S754_finite s m e =>
      let a := Z.shiftl (Z.pos m) e in
      Ok (if s then - a else a)
  | S754_infinity _ =>
      Raise (mkExn OverflowError "cannot convert float infinity to integer")
  | S754_nan => Raise (mkExn ValueError "cannot convert float NaN to integer")
  end.

End Py.

Import Py.

Declare Scope py_scope.
Notation "x <- c1 ;; c2" := (rbind c1 (fun x => c2))
  (at level 61, c1 at next level, right associativity) : py_scope.
Local Open Scope py_scope.

(* ===================================================================== *)
(** ** Configuration and the colour utility                               *)
(* ===================================================================== *)

Definition RESOLUTION : Z * Z := (1920, 1080).
Definition FPS : Z := 30.

(** The keys of the [COLORS] dictionary; every lookup in the program uses
    a literal key. *)
Module K.
Inductive color_key : Type :=
  | bg_dark | primary | secondary | accent | text | text_muted.
End K.

Definition COLORS (k : K.color_key) : string :=
  match k with
  | K.bg_dark => "#0F172A"
  | K.primary => "#3B82F6"
  | K.secondary => "#10B981"
  | K.accent => "#F59E0B"
  | K.text => "#F8FAFC"
  | K.text_muted => "#94A3B8"
  end.

Definition rgb : Type := (Z * Z * Z)%type.

(** [hex_to_rgb]: strip the leading '#'s, read the slices [0:2], [2:4],
    [4:6] in base 16, in this order. *)
Definition hex_to_rgb (hex_color : string) : result rgb :=
  let hex_color := lstrip "#"%char hex_color in
  r <- int16 (slice hex_color 0 2) ;;
  g <- int16 (slice hex_color 2 4) ;;
  b <- int16 (slice hex_color 4 6) ;;
  Ok (r, g, b).

(* ===================================================================== *)
(** ** The colour utility on any string

    [hex_to_rgb] takes any [str].  Above, a colour code is a string of
    code points below 256, which covers every code the program passes.
    Here a string is a list of code points of any size, and what the
    interpreter's character database says of a code point is a parameter.
    An error is kept as its class: its message quotes the [repr] of the
    slice, which for these strings depends on more of the database.      *)
(* ===================================================================== *)

Module Uni.

Definition str : Type := list N.

Inductive verdict (A : Type) : Type :=
  | Returns (a : A)
  | Raises (cls : exn_class).
Arguments Returns {A} a.
Arguments Raises {A} cls.

Definition vbind {A B} (v : verdict A) (k : A -> verdict B) : verdict B :=
  match v with
  | Returns a => k a
  | Raises cls => Raises cls
  end.

(** The character database, as far as [int] consults it: whether a code
    point is white space, and its value as a decimal digit (0 to 9) if it
    is one. *)
Record database : Type := mkDatabase {
  is_whitespace : N -> bool;
  decimal_value : N -> option N
}.

(** Before it parses a string [int] translates it to ASCII: a code point
    below U+007F stays, white space becomes a blank, a decimal digit the
    ASCII digit of its value; the first code point that is none of these
    becomes a question mark, where the translation ends.  (A string that
    is all ASCII is parsed as it is, which is what the translation gives
    as well, apart from DEL, which is rejected either way.) *)
Fixpoint to_ascii (db : database) (s : str) : string :=
  match s with
  | [] => EmptyString
  | ch :: s' =>
      if (ch <? 127)%N then String (ascii_of_N ch) (to_ascii db s')
      else if is_whitespace db ch then String " "%char (to_ascii db s')
      else match decimal_value db ch with
           | Some d => String (ascii_of_N (48 + d)) (to_ascii db s')
           | None => String "?"%char EmptyString
           end
  end.

(** [int(s, 16)]. *)
Definition int16 (db : database) (s : str) : verdict Z :=
  match parse16 (map kind (list_ascii_of_string (to_ascii db s))) with
  | Some v => Returns v
  | None => Raises ValueError
  end.

(** [s.lstrip(ch)] and [s[i:j]] for [0 <= i <= j]. *)
Fixpoint lstrip (ch : N) (s : str) : str :=
  match s with
  | c :: s' => if (c =? ch)%N then lstrip ch s' else s
  | [] => []
  end.

Definition slice (s : str) (i j : nat) : str := firstn (j - i) (skipn i s).

Definition hash : N := 35%N.

Definition hex_to_rgb (db : database) (hex_color : str) : verdict rgb :=
  let hex_color := lstrip hash hex_color in
  vbind (int16 db (slice hex_color 0 2)) (fun r =>
  vbind (int16 db (slice hex_color 2 4)) (fun g =>
  vbind (int16 db (slice hex_color 4 6)) (fun b =>
  Returns (r, g, b)))).

(** The database of Unicode 14.0, which CPython 3.11 carries, from U+007F
    on: the white-space characters, and the first code point of each row
    of ten decimal digits, zero to nine. *)
Definition whitespace_14 : list N :=
  [133; 160; 5760; 8192; 8193; 8194; 8195; 8196; 8197; 8198; 8199; 8200;
   8201; 8202; 8232; 8233; 8239; 8287; 12288]%N.

Definition digit_rows_14 : list N :=
  [1632; 1776; 1984; 2406; 2534; 2662; 2790; 2918; 3046; 3174; 3302; 3430;
   3558; 3664; 3792; 3872; 4160; 4240; 6112; 6160; 6470; 6608; 6784; 6800;
   6992; 7088; 7232; 7248; 42528; 43216; 43264; 43472; 43504; 43600; 44016;
   65296; 66720; 68912; 69734; 69872; 69942; 70096; 70384; 70736; 70864;
   71248; 71360; 71472; 71904; 72016; 72784; 73040; 73120; 92768; 92864;
   93008; 120782; 120792; 120802; 120812; 120822; 123200; 123632; 125264;
   130032]%N.

Definition unicode_14 : database :=
  mkDatabase
    (fun ch => existsb (N.eqb ch) whitespace_14)
    (fun ch =>
       match find (fun row => (row <=? ch) && (ch <? row + 10))%N
                  digit_rows_14 with
       | Some row => Some (ch - row)%N
       | None => None
       end).

(** What a code point is to the parser. *)
Definition kind_of (db : database) (ch : N) : char_kind :=
  if (ch <? 127)%N then kind (ascii_of_N ch)
  else if is_whitespace db ch then Blank
  else match decimal_value db ch with
       | Some d => kind (ascii_of_N (48 + d))
       | None => Other
       end.

Definition is_digit (db : database) (ch : N) : bool :=
  match kind_of db ch with Digit _ => true | _ => false end.

Definition is_blank (db : database) (ch : N) : bool :=
  match kind_of db ch with Blank => true | _ => false end.

Definition is_sign (db : database) (ch : N) : bool :=
  match kind_of db ch with Sign _ => true | _ => false end.

(** What base-16 reading accepts among the strings a slice can be: one
    or two digits, or one digit with a sign or white space before it, or
    white space after it.  A digit is an ASCII hex digit or a decimal
    digit of any script. *)
Definition valid_slice (db : database) (x : str) : bool :=
  match x with
  | [a] => is_digit db a
  | [a; b] =>
      (is_digit db a && is_digit db b)
      || ((is_blank db a || is_sign db a) && is_digit db b)
      || (is_digit db a && is_blank db b)
  | _ => false
  end.

Definition valid_slices (db : database) (s : str) : bool :=
  let h := lstrip hash s in
  valid_slice db (slice h 0 2) && valid_slice db (slice h 2 4)
  && valid_slice db (slice h 4 6).

(** The characters that can occur in an accepted slice. *)
Definition slice_char (db : database) (ch : N) : bool :=
  is_digit db ch || is_blank db ch || is_sign db ch.

(** A string of code points below 256, as a string in general. *)
Definition encode (s : string) : str :=
  map N_of_ascii (list_ascii_of_string s).

(** What the database says of U+007F..U+00FF: NEL and NBSP are white
    space, and there is no decimal digit. *)
Definition latin1 (db : database) : bool :=
  forallb (fun ch => Bool.eqb (is_whitespace db ch)
                              ((ch =? 133) || (ch =? 160))%N
                     && match decimal_value db ch with
                        | Some _ => false
                        | None => true
                        end)
          (map N.of_nat (seq 127 129)).

End Uni.

(** A result without the message of its error. *)
Definition observe {A} (r : result A) : Uni.verdict A :=
  match r with
  | Ok a => Uni.Returns a
  | Raise e => Uni.Raises (exn_cls e)
  end.

(* ===================================================================== *)
(** ** The drawing library, as far as the program uses it                 *)
(* ===================================================================== *)

Inductive font : Type :=
  | FreeTypeFont (path : string) (size : Z)
  | DefaultFont.

Definition bbox : Type := (Z * Z * Z * Z)%type.

Definition bbox_left (b : bbox) : Z := let '(l, _, _, _) := b in l.
Definition bbox_top (b : bbox) : Z := let '(_, t, _, _) := b in t.
Definition bbox_right (b : bbox) : Z := let '(_, _, r, _) := b in r.
Definition bbox_bottom (b : bbox) : Z := let '(_, _, _, bt) := b in bt.

Inductive draw_op : Type :=
  | DrawText (xy : Z * Z) (txt : string) (fill : rgb) (fnt : option font)
  | DrawRectangle (box : bbox) (fill : option rgb) (outline : option rgb)
                  (width : Z)
  | DrawEllipse (box : bbox) (fill : option rgb) (outline : option rgb)
                (width : Z)
  | DrawRoundedRectangle (box : bbox) (radius : Z) (fill : option rgb).

(** An image is its size, its background and the drawing calls made on
    it, oldest first. *)
Record image : Type := mkImage {
  im_size : Z * Z;
  im_background : rgb;
  im_ops : list draw_op
}.

Definition blank_image (size : Z * Z) (color : rgb) : image :=
  mkImage size color [].

(** [Image.new('RGB', size, color)].  The library checks the size first
    and refuses a negative width or height with a [ValueError]; storage
    for the pixels is taken to be available. *)
Definition Image_new (size : Z * Z) (color : rgb) : result image :=
  if (fst size <? 0) || (snd size <? 0)
  then Raise (mkExn ValueError "Width and height must be >= 0")
  else Ok (blank_image size color).

Definition draw (img : image) (op : draw_op) : image :=
  mkImage (im_size img) (im_background img) (im_ops img ++ [op]).

(** [np.array(img)]: an array of shape (height, width, 3). *)
Record frame : Type := mkFrame {
  shape : Z * Z * Z;
  pixels : image
}.

Definition np_array (img : image) : frame :=
  mkFrame (snd (im_size img), fst (im_size img), 3) img.

(** What the host provides: the file system, the font loader, text
    measurement, and whether the encoder fails on a given output path. *)
Record Env : Type := mkEnv {
  path_exists : string -> bool;
  truetype : string -> Z -> result font;
  textbbox : option font -> string -> bbox;
  encoder_error : string -> option exn
}.

(* ===================================================================== *)
(** ** Font resolver                                                      *)
(* ===================================================================== *)

Section FontResolver.

Variable env : Env.

(** The body of the [try]: the font variables are assigned one after the
    other, one per size; the first load that raises leaves the earlier
    assignments in place.  The flag tells whether [break] was reached. *)
Fixpoint try_load (path : string) (sizes : list Z) (vars : list (option font))
  : list (option font) * bool :=
  match sizes, vars with
  | s :: sizes', v :: vars' =>
      match truetype env path s with
      | Ok f =>
          let '(vars'', done) := try_load path sizes' vars' in
          (Some f :: vars'', done)
      | Raise _ => (vars, false)
      end
  | _, _ => (vars, true)
  end.

(** [for path in font_paths: if os.path.exists(path): try ... break
    except: continue]. *)
Fixpoint probe (font_paths : list string) (sizes : list Z)
         (vars : list (option font)) : list (option font) :=
  match font_paths with
  | [] => vars
  | path :: rest =>
      if path_exists env path then
        let '(vars', done) := try_load path sizes vars in
        if done then vars' else probe rest sizes vars'
      else probe rest sizes vars
  end.

(** The whole block: every variable starts as [None]; after the loop, if
    the FIRST variable is still [None], every variable gets the default
    font. *)
Definition resolve_fonts (font_paths : list string) (sizes : list Z)
  : list (option font) :=
  let vars := probe font_paths sizes (map (fun _ => None) sizes) in
  match vars with
  | None :: _ => map (fun _ => Some DefaultFont) vars
  | _ => vars
  end.

Definition font_var (vars : list (option font)) (i : nat) : option font :=
  nth i vars None.

End FontResolver.

Definition sans_fonts : list string :=
  [ "/System/Library/Fonts/PingFang.ttc";
    "/System/Library/Fonts/STHeiti Light.ttc";
    "/System/Library/Fonts/Helvetica.ttc" ].

Definition text_image_fonts : list string :=
  sans_fonts ++ [ "/usr/share/fonts/truetype/dejavu/DejaVuSans.ttf" ].

Definition mono_fonts : list string :=
  [ "/System/Library/Fonts/SF-Mono-Regular.otf";
    "/System/Library/Fonts/Menlo.ttc";
    "/System/Library/Fonts/Courier.dfont" ].

(* ===================================================================== *)
(** ** Frame renderers                                                    *)
(* ===================================================================== *)

Definition nl : string := String "010"%char EmptyString.

Section Renderers.

Variable env : Env.

Definition draw_text (img : image) (xy : Z * Z) (txt : string) (fill : rgb)
           (fnt : option font) : image :=
  draw img (DrawText xy txt fill fnt).

Definition text_width (fnt : option font) (txt : string) : Z :=
  let b := textbbox env fnt txt in bbox_right b - bbox_left b.

Definition text_height (fnt : option font) (txt : string) : Z :=
  let b := textbbox env fnt txt in bbox_bottom b - bbox_top b.

(** [create_text_image]: one centred line, with an optional second line
    under it. *)
Definition create_text_image (txt : string) (size : Z * Z) (font_size : Z)
           (color bg_color : string) (subtext : option string)
  : result frame :=
  bg <- hex_to_rgb bg_color ;;
  img <- Image_new size bg ;;
  let fonts := resolve_fonts env text_image_fonts [font_size; font_size / 2] in
  let font_large := font_var fonts 0 in
  let font_small := font_var fonts 1 in
  let has_subtext :=
    match subtext with Some st => truthy st | None => false end in
  let tw := text_width font_large txt in
  let th := text_height font_large txt in
  let x := (fst size - tw) / 2 in
  let y := if has_subtext then (snd size - th) / 2 - 50
           else (snd size - th) / 2 in
  fill <- hex_to_rgb color ;;
  let img := draw_text img (x, y) txt fill font_large in
  match subtext with
  | Some st =>
      if truthy st then
        let tw2 := text_width font_small st in
        let x2 := (fst size - tw2) / 2 in
        let y2 := y + th + 40 in
        fill2 <- hex_to_rgb (COLORS K.text_muted) ;;
        Ok (np_array (draw_text img (x2, y2) st fill2 font_small))
      else Ok (np_array img)
  | None => Ok (np_array img)
  end.

(* --------------------------------------------------------------------- *)
(** *** Comparison chart                                                  *)

Definition chart_data : list (string * Z * string * string) :=
  [ ("Claude Code", 15000, "#EF4444", "$0.45");
    ("Cursor", 10000, "#F59E0B", "$0.30");
    ("Synapse AI", 5000, "#10B981", "$0.15 节省60%") ].

Definition max_tokens : Z := 15000.
Definition bar_max_width : Z := 800.
Definition chart_start_y : Z := 250.
Definition bar_height : Z := 80.
Definition chart_gap : Z := 120.

(** [int((tokens / max_tokens) * bar_max_width)]. *)
Definition bar_width (tokens : Z) : result Z :=
  q <- truediv tokens max_tokens ;;
  int_of_float (fmul_int q bar_max_width).

(** The body of the loop over [enumerate(data)]. *)
Fixpoint chart_rows (font_label font_num : option font)
         (data : list (string * Z * string * string)) (i : Z) (img : image)
  : result image :=
  match data with
  | [] => Ok img
  | (name, tokens, color, cost) :: rest =>
      let y := chart_start_y + i * chart_gap in
      w <- bar_width tokens ;;
      c_text <- hex_to_rgb (COLORS K.text) ;;
      let img := draw_text img (150, y + 20) name c_text font_label in
      c_track <- hex_to_rgb "#1E293B" ;;
      c_edge <- hex_to_rgb "#334155" ;;
      let img :=
        draw img (DrawRectangle (400, y, 400 + bar_max_width, y + bar_height)
                                (Some c_track) (Some c_edge) 2) in
      c_bar <- hex_to_rgb color ;;
      let img :=
        draw img (DrawRectangle (400, y, 400 + w, y + bar_height)
                                (Some c_bar) None 1) in
      c_text2 <- hex_to_rgb (COLORS K.text) ;;
      let img :=
        draw_text img (420 + bar_max_width + 20, y + 25)
                  (format_commas tokens ++ " tokens") c_text2 font_num in
      let cost_x := 420 + bar_max_width + 250 in
      c_cost <- hex_to_rgb color ;;
      let img := draw_text img (cost_x, y + 25) cost c_cost font_num in
      chart_rows font_label font_num rest (i + 1) img
  end.

Definition create_comparison_chart : result frame :=
  bg <- hex_to_rgb (COLORS K.bg_dark) ;;
  img <- Image_new RESOLUTION bg ;;
  let fonts := resolve_fonts env sans_fonts [48; 32; 28] in
  let font_title := font_var fonts 0 in
  let font_label := font_var fonts 1 in
  let font_num := font_var fonts 2 in
  let title := "同样的代码审查任务 - Token 消耗对比" in
  let x := (fst RESOLUTION - text_width font_title title) / 2 in
  c <- hex_to_rgb (COLORS K.text) ;;
  let img := draw_text img (x, 80) title c font_title in
  img <- chart_rows font_label font_num chart_data 0 img ;;
  Ok (np_array img).

(* --------------------------------------------------------------------- *)
(** *** Logo scene                                                        *)

Fixpoint centered_lines (fnt : option font) (color : string)
         (lines : list string) (y step : Z) (img : image) : result image :=
  match lines with
  | [] => Ok img
  | line :: rest =>
      let x := (fst RESOLUTION - text_width fnt line) / 2 in
      c <- hex_to_rgb color ;;
      centered_lines fnt color rest (y + step) step
                     (draw_text img (x, y) line c fnt)
  end.

Definition create_logo_scene : result frame :=
  bg <- hex_to_rgb (COLORS K.bg_dark) ;;
  img <- Image_new RESOLUTION bg ;;
  let fonts := resolve_fonts env sans_fonts [120; 48; 36] in
  let font_logo := font_var fonts 0 in
  let font_tagline := font_var fonts 1 in
  let font_features := font_var fonts 2 in
  let center_x := fst RESOLUTION / 2 in
  let center_y := 280 in
  let radius := 100 in
  c_fill <- hex_to_rgb (COLORS K.primary) ;;
  c_edge <- hex_to_rgb (COLORS K.secondary) ;;
  let img :=
    draw img (DrawEllipse (center_x - radius, center_y - radius,
                           center_x + radius, center_y + radius)
                          (Some c_fill) (Some c_edge) 8) in
  let name := "Synapse AI" in
  let x := (fst RESOLUTION - text_width font_logo name) / 2 in
  c <- hex_to_rgb (COLORS K.text) ;;
  let img := draw_text img (x, 430) name c font_logo in
  let tagline := "轻量级个人 AI 助手" in
  let x := (fst RESOLUTION - text_width font_tagline tagline) / 2 in
  c <- hex_to_rgb (COLORS K.text_muted) ;;
  let img := draw_text img (x, 580) tagline c font_tagline in
  let features :=
    [ "✓ Token 消耗降低 60%"; "✓ 完全开源免费"; "✓ 微信机器人集成";
      "✓ 本地优先，隐私保护" ] in
  img <- centered_lines font_features (COLORS K.secondary) features 700 60 img ;;
  Ok (np_array img).

(* --------------------------------------------------------------------- *)
(** *** Terminal scene                                                    *)

Definition commands : list (string * string) :=
  [ ("$ ", "#6CC644");
    ("git clone https://github.com/Ricardo-M-L/synapse-ai.git", "#F8FAFC");
    ("", "");
    ("$ ", "#6CC644");
    ("cd synapse-ai && npm install", "#F8FAFC");
    ("", "");
    ("$ ", "#6CC644");
    ("npm run build", "#F8FAFC");
    ("✓ Built successfully in 2.34s", "#10B981");
    ("", "");
    ("$ ", "#6CC644");
    ("npm run cli -- chat", "#F8FAFC");
    ("", "");
    ("🧠 Synapse AI 已启动！", "#3B82F6");
    ("提示: 输入 /help 查看可用命令", "#94A3B8");
    ("synapse> ", "#F59E0B") ].

Definition line_pitch : Z := 40.

(** [for text, color in commands: if text: draw.text(...); y += 40]:
    both statements are in the body of the [if]. *)
Fixpoint terminal_lines (fnt : option font) (cmds : list (string * string))
         (x y : Z) (img : image) : result (image * Z) :=
  match cmds with
  | [] => Ok (img, y)
  | (txt, color) :: rest =>
      if truthy txt then
        c <- hex_to_rgb color ;;
        terminal_lines fnt rest x (y + line_pitch)
                       (draw_text img (x, y) txt c fnt)
      else terminal_lines fnt rest x y img
  end.

Definition create_terminal_scene : result frame :=
  bg <- hex_to_rgb "#1E1E1E" ;;
  img <- Image_new RESOLUTION bg ;;
  let fonts := resolve_fonts env mono_fonts [28; 32] in
  let fnt := font_var fonts 0 in
  c <- hex_to_rgb "#323232" ;;
  let img := draw img (DrawRectangle (0, 0, fst RESOLUTION, 40) (Some c) None 1) in
  c <- hex_to_rgb "#FF5F56" ;;
  let img := draw img (DrawEllipse (20, 12, 36, 28) (Some c) None 1) in
  c <- hex_to_rgb "#FFBD2E" ;;
  let img := draw img (DrawEllipse (46, 12, 62, 28) (Some c) None 1) in
  c <- hex_to_rgb "#27C93F" ;;
  let img := draw img (DrawEllipse (72, 12, 88, 28) (Some c) None 1) in
  r <- terminal_lines fnt commands 40 80 img ;;
  Ok (np_array (fst r)).

(* --------------------------------------------------------------------- *)
(** *** Chat scene                                                        *)

Inductive role : Type := user | ai.

Definition messages : list (role * string) :=
  [ (user, "帮我写一个 Python 脚本，批量重命名文件");
    (ai, "好的，这是一个使用 os 模块的脚本：" ++ nl ++ nl ++ "import os" ++ nl
         ++ "def batch_rename(folder):" ++ nl
         ++ "    for f in os.listdir(folder):" ++ nl ++ "        ...");
    (user, "昨天说的用户系统方案还有吗？");
    (ai, "当然记得！昨天的用户认证方案：" ++ nl ++ nl ++ "1. JWT Token + Refresh"
         ++ nl ++ "2. Redis 存储会话" ++ nl ++ "3. 支持多端登录" ++ nl ++ nl
         ++ "需要展开哪部分？") ].

Definition chat_start_y : Z := 120.
Definition padding : Z := 15.
Definition max_width : Z := 700.
Definition line_height : Z := 30.
Definition bubble_gap : Z := 25.

Definition box_height (lines : list string) : Z :=
  Z.of_nat (List.length lines) * line_height + padding * 2.

(** The inner loop: one [draw.text] per line, [text_y += line_height]. *)
Fixpoint bubble_lines (fnt : option font) (lines : list string)
         (x text_y : Z) (img : image) : result image :=
  match lines with
  | [] => Ok img
  | line :: rest =>
      c <- hex_to_rgb (COLORS K.text) ;;
      bubble_lines fnt rest x (text_y + line_height)
                   (draw_text img (x, text_y) line c fnt)
  end.

(** The outer loop over [messages]; returns the image and the cursor. *)
Fixpoint chat_bubbles (fnt : option font) (msgs : list (role * string))
         (y : Z) (img : image) : result (image * Z) :=
  match msgs with
  | [] => Ok (img, y)
  | (r, content) :: rest =>
      let lines := split "010"%char content in
      let h := box_height lines in
      let '(box_x, color) :=
        match r with
        | user => (fst RESOLUTION - max_width - 80, COLORS K.primary)
        | ai => (80, "#334155")
        end in
      c <- hex_to_rgb color ;;
      let img :=
        draw img (DrawRoundedRectangle (box_x, y, box_x + max_width, y + h)
                                       12 (Some c)) in
      img <- bubble_lines fnt lines (box_x + padding) (y + padding) img ;;
      chat_bubbles fnt rest (y + (h + bubble_gap)) img
  end.

Definition create_chat_demo_scene : result frame :=
  bg <- hex_to_rgb (COLORS K.bg_dark) ;;
  img <- Image_new RESOLUTION bg ;;
  let fonts := resolve_fonts env sans_fonts [36; 24; 20] in
  let font_title := font_var fonts 0 in
  let font_msg := font_var fonts 1 in
  let font_small := font_var fonts 2 in
  c <- hex_to_rgb "#1E293B" ;;
  let img := draw img (DrawRectangle (0, 0, fst RESOLUTION, 70) (Some c) None 1) in
  c <- hex_to_rgb (COLORS K.text) ;;
  let img := draw_text img (40, 20) "Synapse AI Chat" c font_title in
  c <- hex_to_rgb (COLORS K.secondary) ;;
  let img :=
    draw_text img (fst RESOLUTION - 350, 25) "Token: 245 | $0.007" c font_small in
  r <- chat_bubbles font_msg messages chat_start_y img ;;
  let '(img, y) := r in
  let memory_text := "使用了持久化记忆 | .synapse/memories/project-arch.md" in
  c <- hex_to_rgb (COLORS K.accent) ;;
  Ok (np_array (draw_text img (80, y + 15) memory_text c font_small)).

(* --------------------------------------------------------------------- *)
(** *** Closing scene                                                     *)

Definition create_github_end_scene : result frame :=
  bg <- hex_to_rgb (COLORS K.bg_dark) ;;
  img <- Image_new RESOLUTION bg ;;
  let fonts := resolve_fonts env sans_fonts [72; 48; 36] in
  let font_large := font_var fonts 0 in
  let font_medium := font_var fonts 1 in
  let font_small := font_var fonts 2 in
  let center_x := fst RESOLUTION / 2 in
  let center_y := 200 in
  c <- hex_to_rgb (COLORS K.primary) ;;
  let img :=
    draw img (DrawEllipse (center_x - 80, center_y - 80,
                           center_x + 80, center_y + 80) (Some c) None 1) in
  let x := center_x - text_width font_large "★" / 2 in
  let y := center_y - text_height font_large "★" / 2 in
  c <- hex_to_rgb (COLORS K.text) ;;
  let img := draw_text img (x, y) "★" c font_large in
  let title := "Synapse AI" in
  let x := (fst RESOLUTION - text_width font_large title) / 2 in
  c <- hex_to_rgb (COLORS K.text) ;;
  let img := draw_text img (x, 350) title c font_large in
  let url := "github.com/Ricardo-M-L/synapse-ai" in
  let x := (fst RESOLUTION - text_width font_medium url) / 2 in
  c <- hex_to_rgb (COLORS K.primary) ;;
  let img := draw_text img (x, 480) url c font_medium in
  let cta := "点个 Star 支持开源！" in
  let x := (fst RESOLUTION - text_width font_medium cta) / 2 in
  c <- hex_to_rgb (COLORS K.secondary) ;;
  let img := draw_text img (x, 600) cta c font_medium in
  let features :=
    [ "轻量级 - 20MB 体积"; "省钱 - Token 减少 60%"; "安全 - 本地优先";
      "微信 - 机器人集成" ] in
  img <- centered_lines font_small (COLORS K.text_muted) features 720 50 img ;;
  Ok (np_array img).

End Renderers.

(* ===================================================================== *)
(** ** The video library, as far as the program uses it                   *)
(* ===================================================================== *)

Inductive effect : Type :=
  | FadeIn (seconds : Q)
  | FadeOut (seconds : Q).

Record clip : Type := mkClip {
  clip_frame : frame;
  clip_duration : option Z;
  clip_effects : list effect
}.

Definition ImageClip (img : frame) : clip := mkClip img None [].

Definition with_duration (d : Z) (c : clip) : clip :=
  mkClip (clip_frame c) (Some d) (clip_effects c).

(** A fade changes how the frames of the clip look, not how long the clip
    lasts. *)
Definition with_effects (effs : list effect) (c : clip) : clip :=
  mkClip (clip_frame c) (clip_duration c) (clip_effects c ++ effs).

Definition clip_size (c : clip) : Z * Z :=
  let '(h, w, _) := shape (clip_frame c) in (w, h).

(** The result of [concatenate_videoclips(clips, method="compose")]: each
    clip with its start time, and the total duration. *)
Record composite : Type := mkComposite {
  comp_size : Z * Z;
  comp_layers : list (Z * clip);
  comp_duration : Z
}.

(** Start times are the running sums of the durations.  (The library
    also raises a negative running sum to 0; the durations of the program
    are positive.) *)
Fixpoint lay_out (clips : list clip) (t : Z)
  : result (list (Z * clip) * Z) :=
  match clips with
  | [] => Ok ([], t)
  | c :: rest =>
      match clip_duration c with
      | None =>
          Raise (mkExn TypeError
                   "unsupported operand type(s) for +: 'int' and 'NoneType'")
      | Some d =>
          r <- lay_out rest (t + d) ;;
          Ok ((t, c) :: fst r, snd r)
      end
  end.

Definition concatenate_videoclips (clips : list clip) : result composite :=
  match clips with
  | [] => Raise (mkExn ValueError "max() arg is an empty sequence")
  | _ :: _ =>
      r <- lay_out clips 0 ;;
      let w := fold_right Z.max 0 (map (fun c => fst (clip_size c)) clips) in
      let h := fold_right Z.max 0 (map (fun c => snd (clip_size c)) clips) in
      Ok (mkComposite (w, h) (fst r) (snd r))
  end.

(** Number of frames the exporter writes at [fps] frames per second. *)
Definition frame_count (c : composite) (fps : Z) : Z := comp_duration c * fps.

(* ===================================================================== *)
(** ** The script: progress output, assembly, export, entry point         *)
(* ===================================================================== *)

Definition OUTPUT_DIR : string :=
  "/Users/ricardo/Documents/公司学习文件/Kimi_Agent_Clawdbot 轻量化改造/synapse-ai/推广".

(** What a run does, in order: lines printed, the call of
    [write_videofile] with its arguments, clips closed, a trace printed. *)
Inductive event : Type :=
  | Print (line : string)
  | WriteVideoFile (final : composite) (path : string) (fps : Z)
                   (codec : string) (audio : bool) (threads : Z)
  | CloseClip
  | PrintTraceback (e : exn).

(** A statement of the script: it extends the output so far and either
    returns or raises. *)
Definition Script (A : Type) : Type := list event -> result A * list event.

Definition sret {A} (a : A) : Script A := fun out => (Ok a, out).

Definition sbind {A B} (m : Script A) (k : A -> Script B) : Script B :=
  fun out =>
    match m out with
    | (Ok a, out') => k a out'
    | (Raise e, out') => (Raise e, out')
    end.

Definition lift {A} (r : result A) : Script A := fun out => (r, out).

Definition emit (ev : event) : Script unit := fun out => (Ok tt, (out ++ [ev])%list).

Definition print (line : string) : Script unit := emit (Print line).

Notation "'let*' x ':=' m 'in' k" := (sbind m (fun x => k))
  (at level 10, x name, m at level 100, k at level 200) : py_scope.
Notation "m >> k" := (sbind m (fun _ => k))
  (at level 62, right associativity) : py_scope.

Fixpoint close_all (n : nat) : Script unit :=
  match n with
  | O => sret tt
  | S n' => emit CloseClip >> close_all n'
  end.

(** [final_clip.write_videofile(path, fps=..., codec=..., audio=...,
    threads=...)]: the call is recorded, then the encoder may raise. *)
Definition write_videofile (env : Env) (final : composite) (path : string)
           (fps : Z) (codec : string) (audio : bool) (threads : Z)
  : Script unit :=
  emit (WriteVideoFile final path fps codec audio threads) >>
  match encoder_error env path with
  | Some e => lift (Raise e)
  | None => sret tt
  end.

(** [os.path.join(OUTPUT_DIR, "synapse-ai-demo.mp4")]. *)
Definition output_path : string := OUTPUT_DIR ++ "/" ++ "synapse-ai-demo.mp4".

Definition half : Q := 1 # 2.
Definition one_and_half : Q := 3 # 2.

Definition generate_video (env : Env) : Script unit :=
  print "🎬 开始生成 Synapse AI 演示视频..." >>
  let clips : list clip := [] in
  print "⏳ 场景 1/6: 开场 Hook..." >>
  let* hook_img :=
    lift (create_text_image env "你的 AI 助手太烧钱？" RESOLUTION 80
            (COLORS K.text) (COLORS K.bg_dark)
            (Some "每个月几百刀的 API 账单")) in
  let hook_clip :=
    with_effects [FadeIn half; FadeOut half] (with_duration 3 (ImageClip hook_img)) in
  let clips := (clips ++ [hook_clip])%list in
  print "⏳ 场景 2/6: Logo展示..." >>
  let* logo_img := lift (create_logo_scene env) in
  let logo_clip :=
    with_effects [FadeIn half; FadeOut half] (with_duration 5 (ImageClip logo_img)) in
  let clips := (clips ++ [logo_clip])%list in
  print "⏳ 场景 3/6: 安装演示..." >>
  let* terminal_img := lift (create_terminal_scene env) in
  let terminal_clip :=
    with_effects [FadeIn half; FadeOut half]
                 (with_duration 6 (ImageClip terminal_img)) in
  let clips := (clips ++ [terminal_clip])%list in
  print "⏳ 场景 4/6: 聊天演示..." >>
  let* chat_img := lift (create_chat_demo_scene env) in
  let chat_clip :=
    with_effects [FadeIn half; FadeOut half] (with_duration 8 (ImageClip chat_img)) in
  let clips := (clips ++ [chat_clip])%list in
  print "⏳ 场景 5/6: Token对比..." >>
  let* chart_img := lift (create_comparison_chart env) in
  let chart_clip :=
    with_effects [FadeIn half; FadeOut half] (with_duration 6 (ImageClip chart_img)) in
  let clips := (clips ++ [chart_clip])%list in
  print "⏳ 场景 6/6: 结尾号召..." >>
  let* end_img := lift (create_github_end_scene env) in
  let end_clip :=
    with_effects [FadeIn half; FadeOut one_and_half]
                 (with_duration 5 (ImageClip end_img)) in
  let clips := (clips ++ [end_clip])%list in
  print "🔄 合并视频片段..." >>
  let* final_clip := lift (concatenate_videoclips clips) in
  print ("💾 保存视频到: " ++ output_path) >>
  write_videofile env final_clip output_path FPS "libx264" false 4 >>
  print "✅ 视频生成完成！" >>
  print ("📁 文件位置: " ++ output_path) >>
  print ("⏱️ 视频时长: " ++ decimal (comp_duration final_clip) ++ ".0 秒") >>
  print ("📐 分辨率: " ++ decimal (fst RESOLUTION) ++ "x"
          ++ decimal (snd RESOLUTION)) >>
  emit CloseClip >>
  close_all (List.length clips).

(** How the process ends: with an exit status, or with an exception that
    leaves the script uncaught. *)
Inductive outcome : Type :=
  | Exit (status : Z)
  | Uncaught (e : exn).

(** [try: body() except Exception as e: print(...); traceback.print_exc();
    sys.exit(1)]; falling off the end of the script is exit status 0. *)
Definition guarded (body : Script unit) : outcome * list event :=
  match body [] with
  | (Ok _, out) => (Exit 0, out)
  | (Raise e, out) =>
      if derives_from_Exception (exn_cls e) then
        (Exit 1,
         (out ++ [Print ("❌ 错误: " ++ exn_msg e); PrintTraceback e])%list)
      else (Uncaught e, out)
  end.

Definition main (env : Env) : outcome * list event :=
  guarded (generate_video env).

(** How many times the handler ran: once per printed trace. *)
Definition handler_runs (out : list event) : nat :=
  List.length
    (filter (fun ev => match ev with PrintTraceback _ => true | _ => false end)
            out).

(* ===================================================================== *)
(** ** Specification-side vocabulary for colour codes                     *)
(* ===================================================================== *)

(** Six hex digits. *)
Definition hex6 (s : string) : bool :=
  (String.length s =? 6)%nat && forallb is_hex_digit (list_ascii_of_string s).

(** A valid colour code: six hex digits, with or without one leading '#'. *)
Definition valid_code (s : string) : bool :=
  hex6 s ||
  match s with
  | String c s' => Ascii.eqb c "#"%char && hex6 s'
  | EmptyString => false
  end.


Inductive letter_case : Type := Upper | Lower.






(** What base-16 reading accepts among the strings a slice can be (at
    most two characters): one or two hex digits, or one hex digit with a
    sign or a blank before it, or a blank after it. *)
Definition valid_hex_slice (x : string) : bool :=
  match x with
  | String a EmptyString => is_hex_digit a
  | String a (String b EmptyString) =>
      (is_hex_digit a && is_hex_digit b)
      || ((is_space a || is_sign a) && is_hex_digit b)
      || (is_hex_digit a && is_space b)
  | _ => false
  end.

(** The narrow reading of "valid hexadecimal": hex digits, at least one,
    and nothing else. *)
Definition hex_digits_only (x : string) : bool :=
  truthy x && forallb is_hex_digit (list_ascii_of_string x).

(** Enumeration of all characters, by their bits. *)
Definition bits : list bool := [false; true].

Definition all_ascii : list ascii :=
  flat_map (fun b7 => flat_map (fun b6 => flat_map (fun b5 =>
  flat_map (fun b4 => flat_map (fun b3 => flat_map (fun b2 =>
  flat_map (fun b1 => map (fun b0 => Ascii b0 b1 b2 b3 b4 b5 b6 b7) bits)
  bits) bits) bits) bits) bits) bits) bits.

Definition str1 (a : ascii) : string := String a EmptyString.
Definition str2 (a b : ascii) : string := String a (String b EmptyString).

(** The value of a hex digit is between 0 and 15. *)
Definition digit_check (c : ascii) : bool :=
  match digit_value c with
  | Some d => (0 <=? d) && (d <=? 15)
  | None => true
  end.



(* ===================================================================== *)
(** ** Sample hosts                                                       *)
(* ===================================================================== *)

(** A host with no font file at all and a working encoder. *)
Definition env_none : Env :=
  mkEnv (fun _ => false) (fun p s => Ok (FreeTypeFont p s))
        (fun _ _ => (0, 0, 0, 0)) (fun _ => None).

(** A host where only the first sans font file exists and the loader
    refuses sizes that are not positive. *)
Definition env_sized : Env :=
  mkEnv (fun p => String.eqb p "/System/Library/Fonts/PingFang.ttc")
        (fun p s =>
           if 0 <? s then Ok (FreeTypeFont p s)
           else Raise (mkExn ValueError "font size must be greater than 0"))
        (fun _ _ => (0, 0, 0, 0)) (fun _ => None).

(* ===================================================================== *)
(** ** Specification-side vocabulary for the font resolver                *)
(* ===================================================================== *)

(** All the handles of one file, when every size loads. *)
Fixpoint load_all (env : Env) (path : string) (sizes : list Z)
  : option (list font) :=
  match sizes with
  | [] => Some []
  | s :: sizes' =>
      match truetype env path s, load_all env path sizes' with
      | Ok f, Some fs => Some (f :: fs)
      | _, _ => None
      end
  end.

(** The file is there and loads at every requested size. *)
Definition usable (env : Env) (sizes : list Z) (path : string) : bool :=
  path_exists env path
  && match load_all env path sizes with Some _ => true | None => false end.

(** The file is there and loads at the first requested size. *)
Definition loads_first (env : Env) (sizes : list Z) (path : string) : bool :=
  path_exists env path
  && match sizes with
     | s :: _ => is_ok (truetype env path s)
     | [] => true
     end.

(** The token counts the width formula is checked on. *)
Fixpoint count_from (n : nat) (start : Z) : list Z :=
  match n with
  | O => []
  | S n' => start :: count_from n' (start + 1)
  end.

Definition token_range : list Z := count_from (Z.to_nat (max_tokens + 1)) 0.

(** The token counts at which the binary64 product falls just below the
    exact value, which is an integer there. *)
Definition float_short : list Z := [2175; 4275; 4350; 8475; 8550; 8625; 8700].

Definition exact_width (tokens : Z) : Z := tokens * bar_max_width / max_tokens.

(** The width of the bar is the integer part of the exact value
    [tokens * bar_max_width / max_tokens], or one less at the counts of
    [float_short]. *)
Definition width_check (tokens : Z) : bool :=
  match bar_width tokens with
  | Ok w =>
      if existsb (Z.eqb tokens) float_short then w =? exact_width tokens - 1
      else w =? exact_width tokens
  | Raise _ => false
  end.

(** The right edges of the foreground bars: every second rectangle. *)
Fixpoint bar_edges (ops : list draw_op) : list (Z * Z) :=
  match ops with
  | DrawRectangle (x0, _, x1, _) _ None _ :: rest => (x0, x1) :: bar_edges rest
  | _ :: rest => bar_edges rest
  | [] => []
  end.

(* ===================================================================== *)
(** ** Specification-side vocabulary for the layouts                      *)
(* ===================================================================== *)

(** The texts drawn on an image, each with its vertical position. *)
Fixpoint text_rows (ops : list draw_op) : list (string * Z) :=
  match ops with
  | DrawText (_, y) txt _ _ :: rest => (txt, y) :: text_rows rest
  | _ :: rest => text_rows rest
  | [] => []
  end.

(** Number of non-blank entries of a command list. *)
Definition shown (cmds : list (string * string)) : Z :=
  Z.of_nat (List.length (filter (fun c => truthy (fst c)) cmds)).

(** Where the specification puts entry number [i]: the start plus [i]
    pitches. *)
Definition pitched_row (i : Z) : Z := 80 + i * line_pitch.

(** Top and bottom of the bubbles drawn on an image. *)
Fixpoint bubble_spans (ops : list draw_op) : list (Z * Z) :=
  match ops with
  | DrawRoundedRectangle (_, y0, _, y1) _ _ :: rest =>
      (y0, y1) :: bubble_spans rest
  | _ :: rest => bubble_spans rest
  | [] => []
  end.

Definition line_count (content : string) : Z :=
  Z.of_nat (List.length (split "010"%char content)).

(** Height of the bubble of a message, as the specification gives it. *)
Definition bubble_height (m : role * string) : Z :=
  line_count (snd m) * 30 + 2 * 15.

(** Top and bottom of the bubbles of [msgs] when the first starts at [y]. *)
Fixpoint expected_spans (msgs : list (role * string)) (y : Z)
  : list (Z * Z) :=
  match msgs with
  | [] => []
  | m :: rest =>
      (y, y + bubble_height m) :: expected_spans rest (y + bubble_height m + 25)
  end.

Definition sum (l : list Z) : Z := fold_right Z.add 0 l.

(** A message with [n] newline characters. *)
Fixpoint newlines (n : nat) : string :=
  match n with
  | O => EmptyString
  | S n' => String "010"%char (newlines n')
  end.

(** A frame of the fixed resolution: 1080 rows of 1920 pixels, three
    channels, drawn on an image of 1920 by 1080. *)
Definition full_frame (f : frame) : Prop :=
  shape f = (1080, 1920, 3) /\ im_size (pixels f) = (1920, 1080).

(** The call of [create_text_image] for the opening scene. *)
Definition hook_call (env : Env) : result frame :=
  create_text_image env "你的 AI 助手太烧钱？" RESOLUTION 80
    (COLORS K.text) (COLORS K.bg_dark) (Some "每个月几百刀的 API 账单").

(** The six calls of the renderers made by [generate_video], in order. *)
Definition scene_calls (env : Env) : list (result frame) :=
  [ hook_call env;
    create_logo_scene env;
    create_terminal_scene env;
    create_chat_demo_scene env;
    create_comparison_chart env;
    create_github_end_scene env ].

(** The frames shown by a timeline, in order. *)
Definition frames_of (final : composite) : list frame :=
  map (fun l => clip_frame (snd l)) (comp_layers final).

(** Start time and duration of every clip of a timeline. *)
Definition schedule (final : composite) : list (Z * option Z) :=
  map (fun l => (fst l, clip_duration (snd l))) (comp_layers final).

(** The same clip with other effects. *)
Definition refade (effs : clip -> list effect) (c : clip) : clip :=
  mkClip (clip_frame c) (clip_duration c) (effs c).

Definition total_duration (clips : list clip) : Z :=
  sum (map (fun c => match clip_duration c with Some d => d | None => 0 end)
           clips).

(** The call of [write_videofile] that [generate_video] makes on a
    timeline. *)
Definition export_call (final : composite) : event :=
  WriteVideoFile final output_path FPS "libx264" false 4.

(** What is printed before the export. *)
Definition progress_lines : list event :=
  [ Print "🎬 开始生成 Synapse AI 演示视频...";
    Print "⏳ 场景 1/6: 开场 Hook...";
    Print "⏳ 场景 2/6: Logo展示...";
    Print "⏳ 场景 3/6: 安装演示...";
    Print "⏳ 场景 4/6: 聊天演示...";
    Print "⏳ 场景 5/6: Token对比...";
    Print "⏳ 场景 6/6: 结尾号召...";
    Print "🔄 合并视频片段...";
    Print ("💾 保存视频到: " ++ output_path) ].

(** What follows a successful export: the summary, then seven clips
    closed. *)
Definition summary_lines : list event :=
  [ Print "✅ 视频生成完成！";
    Print ("📁 文件位置: " ++ output_path);
    Print "⏱️ 视频时长: 33.0 秒";
    Print "📐 分辨率: 1920x1080";
    CloseClip; CloseClip; CloseClip; CloseClip; CloseClip; CloseClip;
    CloseClip ].

(** The timeline of six frames as [generate_video] assembles it. *)
Definition assembled (f1 f2 f3 f4 f5 f6 : frame) : composite :=
  let fades := [FadeIn half; FadeOut half] in
  mkComposite (1920, 1080)
    [ (0, mkClip f1 (Some 3) fades);
      (3, mkClip f2 (Some 5) fades);
      (8, mkClip f3 (Some 6) fades);
      (14, mkClip f4 (Some 8) fades);
      (22, mkClip f5 (Some 6) fades);
      (28, mkClip f6 (Some 5) [FadeIn half; FadeOut one_and_half]) ]
    33.

(** A black frame, and two clips of it, 3 and 4 seconds long. *)
Definition black_frame : frame :=
  np_array (blank_image RESOLUTION (0, 0, 0)).

Definition two_clips : list clip :=
  [ with_effects [FadeIn half] (with_duration 3 (ImageClip black_frame));
    with_duration 4 (ImageClip black_frame) ].

(** What the handler prints for an exception. *)
Definition report (e : exn) : list event :=
  [Print ("❌ 错误: " ++ exn_msg e); PrintTraceback e].

(** A host whose encoder cannot write the output file. *)
Definition env_unwritable : Env :=
  mkEnv (fun _ => false) (fun p s => Ok (FreeTypeFont p s))
        (fun _ _ => (0, 0, 0, 0))
        (fun _ => Some (mkExn OSError "No such file or directory")).

(** A script that prints a line and then fails on a colour code. *)
Definition failing_script : Script unit :=
  print "start" >> (let* c := lift (hex_to_rgb "#GGGGGG") in sret tt).

(* ===================================================================== *)
(** ** Further vocabulary: fonts                                          *)
(* ===================================================================== *)

(** A host where the first sans font file exists but cannot be read, and
    the second one loads at every size. *)
Definition env_second : Env :=
  mkEnv (fun p => String.eqb p "/System/Library/Fonts/PingFang.ttc"
                  || String.eqb p "/System/Library/Fonts/STHeiti Light.ttc")
        (fun p s =>
           if String.eqb p "/System/Library/Fonts/PingFang.ttc"
           then Raise (mkExn OSError "cannot open resource")
           else Ok (FreeTypeFont p s))
        (fun _ _ => (0, 0, 0, 0)) (fun _ => None).

(** Every handle held by the variables was loaded from one of [paths], a
    file that exists, at the size of its position. *)
Definition from_files (env : Env) (paths : list string) (sizes : list Z)
           (vars : list (option font)) : Prop :=
  forall i f, nth_error vars i = Some (Some f) ->
    exists p s, In p paths /\ path_exists env p = true
                /\ nth_error sizes i = Some s /\ truetype env p s = Ok f.

(* ===================================================================== *)
(** ** Further vocabulary: colour codes                                   *)
(* ===================================================================== *)

(** A channel value that a slice can give: two hex digits give at most
    255, a minus sign before one digit gives at least -15. *)
Definition channel (v : Z) : Prop := -15 <= v <= 255.

(** ASCII letters put in one case; every other character is kept. *)
Definition to_case (cs : letter_case) (c : ascii) : ascii :=
  let n := code c in
  match cs with
  | Lower =>
      if (65 <=? n) && (n <=? 90) then ascii_of_N (Z.to_N (n + 32)) else c
  | Upper =>
      if (97 <=? n) && (n <=? 122) then ascii_of_N (Z.to_N (n - 32)) else c
  end.

Fixpoint recase (cs : letter_case) (s : string) : string :=
  match s with
  | EmptyString => EmptyString
  | String c s' => String (to_case cs c) (recase cs s')
  end.

(** The first of the three slices of a stripped code that is not a valid
    slice, if there is one. *)
Definition first_bad_slice (h : string) : option string :=
  if negb (valid_hex_slice (slice h 0 2)) then Some (slice h 0 2)
  else if negb (valid_hex_slice (slice h 2 4)) then Some (slice h 2 4)
  else if negb (valid_hex_slice (slice h 4 6)) then Some (slice h 4 6)
  else None.

(* ===================================================================== *)
(** ** Further vocabulary: chart                                          *)
(* ===================================================================== *)

(** The boxes of the rectangles drawn on an image, in order. *)
Fixpoint rect_boxes (ops : list draw_op) : list bbox :=
  match ops with
  | DrawRectangle box _ _ _ :: rest => box :: rect_boxes rest
  | _ :: rest => rect_boxes rest
  | [] => []
  end.

(** The width in pixels of the bar for a token count (0 if the width
    cannot be computed). *)
Definition bar_px (tokens : Z) : Z :=
  match bar_width tokens with Ok w => w | Raise _ => 0 end.

(** A row the chart can draw: a count between 0 and the maximum and a
    colour that parses. *)
Definition row_ok (row : string * Z * string * string) : Prop :=
  let '(_, tokens, color, _) := row in
  0 <= tokens <= max_tokens /\ is_ok (hex_to_rgb color) = true.

(** The rectangles of the rows from number [i] on: for each row its track
    and, over it, its bar. *)
Fixpoint expected_rects (data : list (string * Z * string * string)) (i : Z)
  : list bbox :=
  match data with
  | [] => []
  | (_, tokens, _, _) :: rest =>
      let y := 250 + i * 120 in
      (400, y, 1200, y + 80) :: (400, y, 400 + bar_px tokens, y + 80)
      :: expected_rects rest (i + 1)
  end.

(* ===================================================================== *)
(** ** Further vocabulary: text layouts                                   *)
(* ===================================================================== *)

(** [n] positions, [step] apart, from [start] on. *)
Fixpoint positions (n : nat) (start step : Z) : list Z :=
  match n with
  | O => []
  | S n' => start :: positions n' (start + step) step
  end.

(** The texts of the entries that are not blank, in order. *)
Definition shown_texts (cmds : list (string * string)) : list string :=
  map fst (filter (fun c => truthy (fst c)) cmds).

(** An entry the terminal loop can handle: it is blank, or its colour
    parses. *)
Definition entry_ok (c : string * string) : bool :=
  negb (truthy (fst c)) || is_ok (hex_to_rgb (snd c)).

(** [sep.join(pieces)]. *)
Fixpoint join (sep : string) (pieces : list string) : string :=
  match pieces with
  | [] => EmptyString
  | [p] => p
  | p :: rest => p ++ sep ++ join sep rest
  end.

(** Number of occurrences of a character in a string. *)
Fixpoint occurrences (c : ascii) (s : string) : nat :=
  match s with
  | EmptyString => O
  | String a s' =>
      if Ascii.eqb a c then S (occurrences c s') else occurrences c s'
  end.

(** The distances between the bottom of a bubble and the top of the
    next. *)
Fixpoint gaps (spans : list (Z * Z)) : list Z :=
  match spans with
  | (_, bottom) :: (((top, _) :: _) as rest) => (top - bottom) :: gaps rest
  | _ => []
  end.



(* ===================================================================== *)
(** ** Further vocabulary: runs                                           *)
(* ===================================================================== *)





(** A host where the run is interrupted from the keyboard during the
    export. *)
Definition env_interrupted : Env :=
  mkEnv (fun _ => false) (fun p s => Ok (FreeTypeFont p s))
        (fun _ _ => (0, 0, 0, 0))
        (fun _ => Some (mkExn KeyboardInterrupt "")).

(* ===================================================================== *)
(** ** Further vocabulary: number labels                                  *)
(* ===================================================================== *)




(** Left and right side of the bubbles drawn on an image. *)
Fixpoint bubble_sides (ops : list draw_op) : list (Z * Z) :=
  match ops with
  | DrawRoundedRectangle (x0, _, x1, _) _ _ :: rest =>
      (x0, x1) :: bubble_sides rest
  | _ :: rest => bubble_sides rest
  | [] => []
  end.

(** Where the bubble of a role stands: the user on the right, 80 from the
    right edge of the frame; the assistant on the left, 80 from the left
    edge. *)
Definition side_of (r : role) : Z * Z :=
  match r with
  | user => (1140, 1840)
  | ai => (80, 780)
  end.



(* ===================================================================== *)
(** ** Properties of the colour utility                                   *)
(* ===================================================================== *)

Lemma in_bits (b : bool) : In b bits.
Proof. destruct b; simpl; tauto. Qed.

Lemma in_all_ascii (c : ascii) : In c all_ascii.
Proof.
  destruct c as [b0 b1 b2 b3 b4 b5 b6 b7]. unfold all_ascii.
  repeat (apply in_flat_map; eexists; split; [apply in_bits|]).
  apply in_map_iff. exists b0. split; [reflexivity | apply in_bits].
Qed.

Lemma forall_ascii (P : ascii -> bool) :
  forallb P all_ascii = true -> forall c, P c = true.
Proof.
  intros H c. rewrite forallb_forall in H. apply H, in_all_ascii.
Qed.

(** What the parser answers on one and on two characters, by the kinds of
    the characters: it accepts exactly the valid slices, two hex digits
    are read as sixteen times the first plus the second, and what it
    raises is a [ValueError]. *)
Lemma int16_str1 (a : ascii) :
  match int16 (str1 a) with
  | Ok v => valid_hex_slice (str1 a) = true
  | Raise e => valid_hex_slice (str1 a) = false /\ exn_cls e = ValueError
  end.
Proof.
  unfold int16, valid_hex_slice, str1, is_hex_digit, digit_value.
  cbn [list_ascii_of_string map].
  destruct (kind a) as [|na| |[|pa|pa]| |]; cbn; try split; reflexivity.
Qed.

Lemma int16_str2 (a b : ascii) :
  match int16 (str2 a b) with
  | Ok v =>
      valid_hex_slice (str2 a b) = true
      /\ forall x y, digit_value a = Some x -> digit_value b = Some y ->
                     v = 16 * x + y
  | Raise e => valid_hex_slice (str2 a b) = false /\ exn_cls e = ValueError
  end.
Proof.
  unfold int16, valid_hex_slice, str2, is_hex_digit, digit_value, is_space,
    is_sign.
  cbn [list_ascii_of_string map].
  destruct (kind a) as [|na| |[|pa|pa]| |];
    destruct (kind b) as [|nb| |[|pb|pb]| |];
    cbn -[Z.mul Z.add Z.opp]; split; try reflexivity;
    intros x y Hx Hy; try discriminate;
    injection Hx as <-; injection Hy as <-; lia.
Qed.

(** Every slice is a string of at most two characters. *)
Lemma slice_cases (h : string) (i : nat) :
  slice h i (i + 2) = EmptyString
  \/ (exists a, slice h i (i + 2) = str1 a)
  \/ (exists a b, slice h i (i + 2) = str2 a b).
Proof.
  unfold slice. replace (i + 2 - i)%nat with 2%nat by lia.
  revert h. induction i as [|i IH]; intros h.
  - destruct h as [|a [|b h]]; simpl.
    + now left.
    + right; left. now exists a.
    + right; right. exists a, b. now destruct h.
  - destruct h as [|a h]; simpl.
    + now left.
    + apply IH.
Qed.

(** The parser accepts a slice exactly when it is valid, and what it
    raises otherwise is a [ValueError]. *)
Lemma int16_slice (h : string) (i : nat) :
  match int16 (slice h i (i + 2)) with
  | Ok _ => valid_hex_slice (slice h i (i + 2)) = true
  | Raise e =>
      valid_hex_slice (slice h i (i + 2)) = false /\ exn_cls e = ValueError
  end.
Proof.
  destruct (slice_cases h i) as [E | [[a E] | [a [b E]]]]; rewrite E.
  - vm_compute. split; reflexivity.
  - apply int16_str1.
  - pose proof (int16_str2 a b) as H.
    destruct (int16 (str2 a b)) as [v|e]; tauto.
Qed.


Lemma lstrip_app (s extra : string) :
  lstrip "#"%char s <> EmptyString ->
  lstrip "#"%char (s ++ extra) = lstrip "#"%char s ++ extra.
Proof.
  induction s as [|c s IH]; simpl; intros H; [congruence|].
  destruct (Ascii.eqb c "#"%char); [now apply IH | reflexivity].
Qed.



(** The result of [hex_to_rgb] only depends on the three slices. *)
Lemma hex_to_rgb_slices (s : string) :
  hex_to_rgb s =
  let h := lstrip "#"%char s in
  r <- int16 (slice h 0 2) ;; g <- int16 (slice h 2 4) ;;
  b <- int16 (slice h 4 6) ;; Ok (r, g, b).
Proof. reflexivity. Qed.

Lemma hex_to_rgb_raises (s : string) :
  let h := lstrip "#"%char s in
  valid_hex_slice (slice h 0 2) && valid_hex_slice (slice h 2 4)
  && valid_hex_slice (slice h 4 6) = false ->
  exists e, hex_to_rgb s = Raise e /\ exn_cls e = ValueError.
Proof.
  intros h H. rewrite hex_to_rgb_slices. fold h. cbv zeta.
  pose proof (int16_slice h 0) as H0.
  pose proof (int16_slice h 2) as H2.
  pose proof (int16_slice h 4) as H4.
  simpl Nat.add in *.
  destruct (int16 (slice h 0 2)) as [r|e]; simpl.
  2:{ exists e. tauto. }
  destruct (int16 (slice h 2 4)) as [g|e]; simpl.
  2:{ exists e. tauto. }
  destruct (int16 (slice h 4 6)) as [b|e]; simpl.
  2:{ exists e. tauto. }
  rewrite H0, H2, H4 in H. discriminate.
Qed.

Lemma hex_to_rgb_returns (s : string) :
  let h := lstrip "#"%char s in
  valid_hex_slice (slice h 0 2) && valid_hex_slice (slice h 2 4)
  && valid_hex_slice (slice h 4 6) = true ->
  exists t, hex_to_rgb s = Ok t.
Proof.
  intros h H. rewrite hex_to_rgb_slices. fold h. cbv zeta.
  apply andb_prop in H. destruct H as [H H4].
  apply andb_prop in H. destruct H as [H0 H2].
  pose proof (int16_slice h 0) as K0.
  pose proof (int16_slice h 2) as K2.
  pose proof (int16_slice h 4) as K4.
  simpl Nat.add in *.
  destruct (int16 (slice h 0 2)) as [r|e]; [|destruct K0; congruence].
  destruct (int16 (slice h 2 4)) as [g|e]; [|destruct K2; congruence].
  destruct (int16 (slice h 4 6)) as [b|e]; [|destruct K4; congruence].
  simpl. now exists (r, g, b).
Qed.

Lemma digit_value_range (c : ascii) (d : Z) :
  digit_value c = Some d -> 0 <= d <= 15.
Proof.
  intros H.
  assert (K : digit_check c = true).
  { revert c H. intros c _. revert c. apply forall_ascii.
    vm_compute. reflexivity. }
  unfold digit_check in K. rewrite H in K.
  apply andb_prop in K. lia.
Qed.
















(* --------------------------------------------------------------------- *)
(** *** [hex_to_rgb] on any string                                        *)

(** A slice is a string of at most two code points. *)
Lemma uni_slice_cases (h : Uni.str) (i : nat) :
  Uni.slice h i (i + 2) = []
  \/ (exists a, Uni.slice h i (i + 2) = [a])
  \/ (exists a b, Uni.slice h i (i + 2) = [a; b]).
Proof.
  unfold Uni.slice. replace (i + 2 - i)%nat with 2%nat by lia.
  destruct (skipn i h) as [|a [|b l]]; simpl; eauto.
Qed.

Lemma parse16_other_first (l : list char_kind) : parse16 (Other :: l) = None.
Proof. reflexivity. Qed.

(** On a slice, the parser sees the kinds of the code points: what the
    translation drops after a question mark cannot make the text
    acceptable. *)
Lemma to_ascii_kinds (db : Uni.database) (x : Uni.str) :
  (List.length x <= 2)%nat ->
  parse16 (map kind (list_ascii_of_string (Uni.to_ascii db x)))
  = parse16 (map (Uni.kind_of db) x).
Proof.
  intros H. destruct x as [|a [|b [|c x]]]; [reflexivity| | |simpl in H; lia].
  - unfold Uni.kind_of. cbn [Uni.to_ascii map].
    destruct (a <? 127)%N; [reflexivity|].
    destruct (Uni.is_whitespace db a); [reflexivity|].
    destruct (Uni.decimal_value db a); reflexivity.
  - assert (K : forall ca ka, kind ca = ka ->
                parse16 (map kind (list_ascii_of_string
                                     (String ca (Uni.to_ascii db [b]))))
                = parse16 [ka; Uni.kind_of db b]).
    { intros ca ka <-. unfold Uni.kind_of. cbn [Uni.to_ascii].
      destruct (b <? 127)%N; [reflexivity|].
      destruct (Uni.is_whitespace db b); [reflexivity|].
      destruct (Uni.decimal_value db b); reflexivity. }
    change (Uni.to_ascii db [a; b])
      with (if (a <? 127)%N
            then String (ascii_of_N a) (Uni.to_ascii db [b])
            else if Uni.is_whitespace db a
                 then String " "%char (Uni.to_ascii db [b])
                 else match Uni.decimal_value db a with
                      | Some d => String (ascii_of_N (48 + d))
                                         (Uni.to_ascii db [b])
                      | None => String "?"%char EmptyString
                      end).
    cbn [map]. unfold Uni.kind_of at 1.
    destruct (a <? 127)%N; [now apply K|].
    destruct (Uni.is_whitespace db a); [now apply K|].
    destruct (Uni.decimal_value db a); [now apply K|].
    rewrite parse16_other_first. reflexivity.
Qed.

(** The parser accepts a slice exactly when it is valid, and what it
    raises otherwise is a [ValueError]. *)
Lemma uni_int16_slice (db : Uni.database) (h : Uni.str) (i : nat) :
  match Uni.int16 db (Uni.slice h i (i + 2)) with
  | Uni.Returns _ => Uni.valid_slice db (Uni.slice h i (i + 2)) = true
  | Uni.Raises cls =>
      Uni.valid_slice db (Uni.slice h i (i + 2)) = false /\ cls = ValueError
  end.
Proof.
  unfold Uni.int16.
  destruct (uni_slice_cases h i) as [E | [[a E] | [a [b E]]]]; rewrite E;
    rewrite to_ascii_kinds by (simpl; lia);
    unfold Uni.valid_slice, Uni.is_digit, Uni.is_blank, Uni.is_sign;
    cbn [map].
  - split; reflexivity.
  - destruct (Uni.kind_of db a) as [|na| |[|pa|pa]| |]; cbn;
      try split; reflexivity.
  - destruct (Uni.kind_of db a) as [|na| |[|pa|pa]| |];
      destruct (Uni.kind_of db b) as [|nb| |[|pb|pb]| |];
      cbn; try split; reflexivity.
Qed.

(** [hex_to_rgb] returns when the three slices are valid, and raises a
    [ValueError] when one is not. *)
Lemma uni_hex_to_rgb_slices (db : Uni.database) (s : Uni.str) :
  match Uni.hex_to_rgb db s with
  | Uni.Returns _ => Uni.valid_slices db s = true
  | Uni.Raises cls => Uni.valid_slices db s = false /\ cls = ValueError
  end.
Proof.
  unfold Uni.hex_to_rgb, Uni.valid_slices.
  set (h := Uni.lstrip Uni.hash s).
  pose proof (uni_int16_slice db h 0) as H0.
  pose proof (uni_int16_slice db h 2) as H2.
  pose proof (uni_int16_slice db h 4) as H4.
  simpl Nat.add in *.
  destruct (Uni.int16 db (Uni.slice h 0 2)) as [r|c]; cbn [Uni.vbind].
  2:{ destruct H0 as [-> ->]. split; reflexivity. }
  destruct (Uni.int16 db (Uni.slice h 2 4)) as [g|c]; cbn [Uni.vbind].
  2:{ destruct H2 as [-> ->]. rewrite andb_false_r. split; reflexivity. }
  destruct (Uni.int16 db (Uni.slice h 4 6)) as [b|c]; cbn [Uni.vbind].
  2:{ destruct H4 as [-> ->]. rewrite andb_false_r. split; reflexivity. }
  rewrite H0, H2, H4. reflexivity.
Qed.

Lemma uni_raises_iff (db : Uni.database) (s : Uni.str) :
  (exists cls, Uni.hex_to_rgb db s = Uni.Raises cls)
  <-> Uni.valid_slices db s = false.
Proof.
  pose proof (uni_hex_to_rgb_slices db s) as H.
  destruct (Uni.hex_to_rgb db s) as [t|c].
  - split; [intros [cls E]; discriminate | congruence].
  - split; [tauto | intros _; now exists c].
Qed.

Lemma uni_raises_value_error (db : Uni.database) (s : Uni.str)
      (cls : exn_class) :
  Uni.hex_to_rgb db s = Uni.Raises cls -> cls = ValueError.
Proof.
  intros E. pose proof (uni_hex_to_rgb_slices db s) as H.
  rewrite E in H. tauto.
Qed.

(** Leading '#' and characters after the sixth. *)
Lemma uni_lstrip_hashes (n : nat) (s : Uni.str) :
  Uni.lstrip Uni.hash (repeat Uni.hash n ++ s)%list = Uni.lstrip Uni.hash s.
Proof. induction n as [|n IH]; [reflexivity | exact IH]. Qed.

Lemma uni_lstrip_app (s extra : Uni.str) :
  Uni.lstrip Uni.hash s <> [] ->
  Uni.lstrip Uni.hash (s ++ extra)%list
  = (Uni.lstrip Uni.hash s ++ extra)%list.
Proof.
  induction s as [|c s IH]; simpl; intros H; [congruence|].
  destruct (c =? Uni.hash)%N; [now apply IH | reflexivity].
Qed.

Lemma uni_slice_app (h extra : Uni.str) (i : nat) :
  (i + 2 <= List.length h)%nat ->
  Uni.slice (h ++ extra)%list i (i + 2) = Uni.slice h i (i + 2).
Proof.
  intros H. unfold Uni.slice. replace (i + 2 - i)%nat with 2%nat by lia.
  rewrite skipn_app, firstn_app, length_skipn.
  replace (2 - (List.length h - i))%nat with 0%nat by lia.
  cbn [firstn]. apply app_nil_r.
Qed.

Lemma uni_hex_to_rgb_hashes (db : Uni.database) (n : nat) (s : Uni.str) :
  Uni.hex_to_rgb db (repeat Uni.hash n ++ s)%list = Uni.hex_to_rgb db s.
Proof. unfold Uni.hex_to_rgb. now rewrite uni_lstrip_hashes. Qed.

Lemma uni_hex_to_rgb_extra (db : Uni.database) (s extra : Uni.str) :
  (6 <= List.length (Uni.lstrip Uni.hash s))%nat ->
  Uni.hex_to_rgb db (s ++ extra)%list = Uni.hex_to_rgb db s.
Proof.
  intros H. unfold Uni.hex_to_rgb.
  rewrite uni_lstrip_app by (intros E; rewrite E in H; simpl in H; lia).
  rewrite (uni_slice_app _ extra 0), (uni_slice_app _ extra 2),
    (uni_slice_app _ extra 4) by (simpl; lia).
  reflexivity.
Qed.

(** Codes that are too short, or hold a character that no slice can
    hold. *)
Lemma uni_valid_slice_chars (db : Uni.database) (x : Uni.str) (ch : N) :
  Uni.valid_slice db x = true -> In ch x -> Uni.slice_char db ch = true.
Proof.
  unfold Uni.slice_char. intros V I.
  destruct x as [|a [|b [|d x]]]; simpl in V; try discriminate.
  - destruct I as [<- | []]. now rewrite V.
  - destruct I as [<- | [<- | []]].
    + destruct (Uni.is_digit db a), (Uni.is_blank db a), (Uni.is_sign db a);
        simpl in *; congruence.
    + destruct (Uni.is_digit db b), (Uni.is_blank db b); simpl in *;
        try reflexivity; rewrite ?andb_false_r in V; discriminate.
Qed.

Lemma uni_in_slice (h : Uni.str) (k j : nat) (ch : N) :
  (j < 2)%nat -> nth_error h (k + j) = Some ch ->
  In ch (Uni.slice h k (k + 2)).
Proof.
  unfold Uni.slice. replace (k + 2 - k)%nat with 2%nat by lia.
  revert h. induction k as [|k IH]; intros h Hj G.
  - destruct h as [|a h]; [destruct j; discriminate|].
    destruct j as [|[|j]]; [injection G as <-; now left | | lia].
    destruct h as [|b h]; [discriminate|].
    injection G as <-. right. now left.
  - destruct h as [|a h]; [discriminate|]. simpl. now apply IH.
Qed.

Lemma uni_short_code (db : Uni.database) (s : Uni.str) :
  (List.length (Uni.lstrip Uni.hash s) <= 4)%nat ->
  Uni.valid_slices db s = false.
Proof.
  intros H. unfold Uni.valid_slices.
  destruct (Uni.lstrip Uni.hash s) as [|c1 [|c2 [|c3 [|c4 [|c5 h]]]]];
    try apply andb_false_r.
  simpl in H. lia.
Qed.

Lemma uni_bad_char (db : Uni.database) (s : Uni.str) (i : nat) (ch : N) :
  (i < 6)%nat -> nth_error (Uni.lstrip Uni.hash s) i = Some ch ->
  Uni.slice_char db ch = false ->
  Uni.valid_slices db s = false.
Proof.
  intros Hi G B. unfold Uni.valid_slices.
  set (h := Uni.lstrip Uni.hash s) in *.
  assert (K : forall k j, i = (k + j)%nat -> (j < 2)%nat ->
                Uni.valid_slice db (Uni.slice h k (k + 2)) = false).
  { intros k j -> Hj.
    destruct (Uni.valid_slice db (Uni.slice h k (k + 2))) eqn:V;
      [|reflexivity].
    pose proof (uni_valid_slice_chars db _ ch V (uni_in_slice h k j ch Hj G)).
    congruence. }
  assert (K0 := fun j => K 0%nat j). assert (K2 := fun j => K 2%nat j).
  assert (K4 := fun j => K 4%nat j). simpl Nat.add in K0, K2, K4.
  destruct i as [|[|[|[|[|[|i]]]]]]; try lia.
  - rewrite (K0 0%nat); auto.
  - rewrite (K0 1%nat); auto.
  - rewrite (K2 0%nat); auto. now rewrite andb_false_r.
  - rewrite (K2 1%nat); auto. now rewrite andb_false_r.
  - rewrite (K4 0%nat); auto. apply andb_false_r.
  - rewrite (K4 1%nat); auto. apply andb_false_r.
Qed.

(** On code points below 256 the two models agree. *)
Lemma latin1_kinds :
  forallb (fun a => (N_of_ascii a <? 127)%N
                    || match kind a with
                       | Blank => (N_of_ascii a =? 133)%N
                                  || (N_of_ascii a =? 160)%N
                       | Other => negb ((N_of_ascii a =? 133)%N
                                        || (N_of_ascii a =? 160)%N)
                       | _ => false
                       end)
          all_ascii = true.
Proof. vm_compute. reflexivity. Qed.

Lemma kind_of_latin1 (db : Uni.database) (a : ascii) :
  Uni.latin1 db = true -> Uni.kind_of db (N_of_ascii a) = kind a.
Proof.
  intros L. unfold Uni.kind_of.
  destruct (N_of_ascii a <? 127)%N eqn:E.
  - now rewrite ascii_N_embedding.
  - pose proof (forall_ascii _ latin1_kinds a) as K. cbv beta in K.
    rewrite E in K. cbn [orb] in K.
    unfold Uni.latin1 in L. rewrite forallb_forall in L.
    assert (I : In (N_of_ascii a) (map N.of_nat (seq 127 129))).
    { apply in_map_iff. exists (N.to_nat (N_of_ascii a)).
      apply N.ltb_ge in E. pose proof (N_ascii_bounded a).
      split; [lia | apply in_seq; lia]. }
    specialize (L _ I). apply andb_prop in L. destruct L as [L1 L2].
    apply Bool.eqb_prop in L1. rewrite L1.
    destruct (Uni.decimal_value db (N_of_ascii a)); [discriminate|].
    destruct (kind a);
      destruct ((N_of_ascii a =? 133)%N || (N_of_ascii a =? 160)%N);
      try discriminate; reflexivity.
Qed.

Lemma encode_lstrip (s : string) :
  Uni.lstrip Uni.hash (Uni.encode s) = Uni.encode (lstrip "#"%char s).
Proof.
  induction s as [|c s IH]; [reflexivity|].
  unfold Uni.encode in *. cbn [list_ascii_of_string map Uni.lstrip lstrip].
  destruct (Ascii.eqb_spec c "#"%char) as [->|D].
  - exact IH.
  - destruct (N.eqb_spec (N_of_ascii c) Uni.hash) as [E|_]; [|reflexivity].
    exfalso. apply D. rewrite <- (ascii_N_embedding c), E. reflexivity.
Qed.

Lemma encode_slice (h : string) (i : nat) :
  Uni.slice (Uni.encode h) i (i + 2) = Uni.encode (slice h i (i + 2)).
Proof.
  unfold Uni.slice, slice, Uni.encode.
  replace (i + 2 - i)%nat with 2%nat by lia.
  revert h. induction i as [|i IH]; intros h.
  - destruct h as [|a [|b h]]; try reflexivity. simpl. now destruct h.
  - destruct h as [|a h]; [reflexivity|]. simpl. apply IH.
Qed.

Lemma encode_length (x : string) :
  List.length (Uni.encode x) = String.length x.
Proof.
  unfold Uni.encode. rewrite length_map.
  induction x as [|c x IH]; simpl; congruence.
Qed.

Lemma int16_agrees (db : Uni.database) (h : string) (i : nat) :
  Uni.latin1 db = true ->
  Uni.int16 db (Uni.encode (slice h i (i + 2)))
  = observe (int16 (slice h i (i + 2))).
Proof.
  intros L. unfold Uni.int16, int16.
  rewrite to_ascii_kinds.
  2:{ rewrite encode_length.
      destruct (slice_cases h i) as [E | [[a E] | [a [b E]]]]; rewrite E;
        simpl; lia. }
  unfold Uni.encode. rewrite map_map.
  rewrite (map_ext _ kind) by (intros a; now apply kind_of_latin1).
  destruct (parse16 (map kind (list_ascii_of_string (slice h i (i + 2)))));
    reflexivity.
Qed.

Lemma hex_to_rgb_agrees (db : Uni.database) (s : string) :
  Uni.latin1 db = true ->
  Uni.hex_to_rgb db (Uni.encode s) = observe (hex_to_rgb s).
Proof.
  intros L. unfold Uni.hex_to_rgb, hex_to_rgb.
  rewrite encode_lstrip. set (h := lstrip "#"%char s).
  pose proof (encode_slice h 0) as S0. pose proof (encode_slice h 2) as S2.
  pose proof (encode_slice h 4) as S4. simpl Nat.add in S0, S2, S4.
  rewrite S0, S2, S4.
  pose proof (int16_agrees db h 0 L) as H0.
  pose proof (int16_agrees db h 2 L) as H2.
  pose proof (int16_agrees db h 4 L) as H4.
  simpl Nat.add in *. rewrite H0, H2, H4.
  destruct (int16 (slice h 0 2)) as [r|e]; [|reflexivity].
  destruct (int16 (slice h 2 4)) as [g|e]; [|reflexivity].
  destruct (int16 (slice h 4 6)) as [b|e]; reflexivity.
Qed.

(* --------------------------------------------------------------------- *)
(** *** When [hex_to_rgb] raises                                          *)

(** The code [１２3456], whose first two digits are full-width, is read
    like [123456]. *)
Lemma fullwidth_digits_accepted :
  Uni.hex_to_rgb Uni.unicode_14 [65297; 65298; 51; 52; 53; 54]%N
  = Uni.Returns (18, 52, 86).
Proof. reflexivity. Qed.

(** C10, with "valid hexadecimal" read as hex digits and nothing else,
    fails: none of the slices [+1], [-2], [ 3] is made of hex digits, and
    the code is accepted, as (1, -2, 3). *)
Lemma signed_slices_accepted :
  ~ (forall s,
       let h := lstrip "#"%char s in
       (exists e, hex_to_rgb s = Raise e) <->
       hex_digits_only (slice h 0 2) && hex_digits_only (slice h 2 4)
       && hex_digits_only (slice h 4 6) = false).
Proof.
  intros H. destruct (proj2 (H "+1-2 3") eq_refl) as [e He].
  vm_compute in He. discriminate.
Qed.

(** C10 (amended): on any string and whatever the character database,
    [hex_to_rgb] raises exactly when one of the slices [0:2], [2:4],
    [4:6] of the code, taken after all leading '#' are stripped, is not
    accepted by the base-16 reading, that is, is none of: one or two
    digits, a sign or white space and then a digit, a digit and then white
    space (a digit being an ASCII hex digit or a decimal digit of any
    script); what it raises is a [ValueError]; any number of leading '#'
    is accepted, and characters after the sixth are ignored. *)
Theorem hex_to_rgb_raises_on_bad_slice (db : Uni.database) (s : Uni.str) :
  let h := Uni.lstrip Uni.hash s in
  ((exists cls, Uni.hex_to_rgb db s = Uni.Raises cls) <->
   Uni.valid_slice db (Uni.slice h 0 2) && Uni.valid_slice db (Uni.slice h 2 4)
   && Uni.valid_slice db (Uni.slice h 4 6) = false)
  /\ (forall cls, Uni.hex_to_rgb db s = Uni.Raises cls -> cls = ValueError)
  /\ (forall n,
        Uni.hex_to_rgb db (repeat Uni.hash n ++ s)%list = Uni.hex_to_rgb db s)
  /\ (forall extra, (6 <= List.length h)%nat ->
        Uni.hex_to_rgb db (s ++ extra)%list = Uni.hex_to_rgb db s).
Proof.
  intros h. split; [|split; [|split]].
  - exact (uni_raises_iff db s).
  - intros cls. apply uni_raises_value_error.
  - intros n. apply uni_hex_to_rgb_hashes.
  - intros extra H. now apply uni_hex_to_rgb_extra.
Qed.

Lemma hex_to_rgb_raises_on_bad_slice_witness :
  (exists cls,
     Uni.hex_to_rgb Uni.unicode_14 (Uni.encode "1+2345") = Uni.Raises cls)
  /\ Uni.hex_to_rgb Uni.unicode_14
       (repeat Uni.hash 3 ++ [65297; 65298; 51; 52; 53; 54]%N)%list
     = Uni.Returns (18, 52, 86)
  /\ Uni.hex_to_rgb Uni.unicode_14
       ([65297; 65298; 51; 52; 53; 54]%N ++ Uni.encode "FF")%list
     = Uni.Returns (18, 52, 86).
Proof.
  split; [|split].
  - destruct (hex_to_rgb_raises_on_bad_slice Uni.unicode_14
                (Uni.encode "1+2345")) as (H & _).
    apply (proj2 H). reflexivity.
  - destruct (hex_to_rgb_raises_on_bad_slice Uni.unicode_14
                [65297; 65298; 51; 52; 53; 54]%N) as (_ & _ & H & _).
    rewrite (H 3%nat). reflexivity.
  - destruct (hex_to_rgb_raises_on_bad_slice Uni.unicode_14
                [65297; 65298; 51; 52; 53; 54]%N) as (_ & _ & _ & H).
    rewrite (H (Uni.encode "FF")); [reflexivity | simpl; lia].
Defined.

(* --------------------------------------------------------------------- *)
(** *** Malformed codes                                                   *)

(** C7, as stated, fails: a malformed code whose three slices all parse
    is accepted.  The eight-digit code 0F172AFF, the code with two leading
    '#', the five-digit code and the signed code all return a triple. *)
Lemma malformed_code_accepted :
  ~ (forall s, valid_code s = false -> exists e, hex_to_rgb s = Raise e).
Proof.
  intros H. destruct (H "0F172AFF" eq_refl) as [e He].
  vm_compute in He. discriminate.
Qed.

Lemma malformed_codes_accepted_more :
  hex_to_rgb "0F172AFF" = Ok (15, 23, 42)
  /\ hex_to_rgb "##0F172A" = Ok (15, 23, 42)
  /\ hex_to_rgb "0F172" = Ok (15, 23, 2)
  /\ hex_to_rgb "+1-2 3" = Ok (1, -2, 3).
Proof. repeat split; reflexivity. Qed.

Section Propagation.

Variable env : Env.

(** A colour code that does not parse makes the renderer raise the same
    exception: nothing is recovered on the way. *)
Lemma create_text_image_propagates (txt : string) (size : Z * Z)
      (font_size : Z) (color bg_color : string) (subtext : option string)
      (e : exn) :
  hex_to_rgb bg_color = Raise e ->
  create_text_image env txt size font_size color bg_color subtext = Raise e.
Proof. intros H. unfold create_text_image. rewrite H. reflexivity. Qed.

(** C7 (amended): on any string and whatever the character database, a
    code fails exactly when one of its slices [0:2], [2:4], [4:6], taken
    after all leading '#' are stripped, is not accepted by the base-16
    reading, and then with a [ValueError]; every other code, malformed or
    not, returns a triple.  In particular a code fails when at most four
    characters remain after the leading '#', and when one of the first
    six is neither a digit, nor a sign, nor white space.  Nothing recovers
    from the failure: for a code of code points below 256 (where the
    database is the one of Latin-1) [create_text_image] raises the very
    exception that [hex_to_rgb] raised. *)
Theorem hex_to_rgb_failure_propagates (db : Uni.database) (s : Uni.str) :
  let h := Uni.lstrip Uni.hash s in
  ((exists cls, Uni.hex_to_rgb db s = Uni.Raises cls)
   <-> Uni.valid_slices db s = false)
  /\ (forall cls, Uni.hex_to_rgb db s = Uni.Raises cls -> cls = ValueError)
  /\ (Uni.valid_slices db s = true ->
      exists t, Uni.hex_to_rgb db s = Uni.Returns t)
  /\ ((List.length h <= 4)%nat -> Uni.valid_slices db s = false)
  /\ (forall i ch, (i < 6)%nat -> nth_error h i = Some ch ->
        Uni.slice_char db ch = false -> Uni.valid_slices db s = false)
  /\ (forall code, s = Uni.encode code -> Uni.latin1 db = true ->
        Uni.valid_slices db s = false ->
        exists e, hex_to_rgb code = Raise e /\ exn_cls e = ValueError
                  /\ forall txt size font_size color subtext,
                       create_text_image env txt size font_size color code
                                         subtext = Raise e).
Proof.
  intros h. split; [exact (uni_raises_iff db s)|].
  split; [intros cls; apply uni_raises_value_error|].
  split; [|split; [|split]].
  - intros V. pose proof (uni_hex_to_rgb_slices db s) as H.
    destruct (Uni.hex_to_rgb db s) as [t|c]; [now exists t|].
    destruct H as [H _]. congruence.
  - apply uni_short_code.
  - intros i ch. apply uni_bad_char.
  - intros code -> L V.
    pose proof (uni_hex_to_rgb_slices db (Uni.encode code)) as H.
    rewrite (hex_to_rgb_agrees db code L) in H.
    destruct (hex_to_rgb code) as [t|e] eqn:He; cbn [observe] in H;
      [congruence|].
    exists e. split; [reflexivity|]. split; [tauto|].
    intros. now apply create_text_image_propagates.
Qed.

End Propagation.

Lemma hex_to_rgb_failure_propagates_witness :
  (exists cls,
     Uni.hex_to_rgb Uni.unicode_14 (Uni.encode "1+2345") = Uni.Raises cls)
  /\ (exists t,
        Uni.hex_to_rgb Uni.unicode_14 [65297; 65298; 51; 52; 53; 54; 55]%N
        = Uni.Returns t)
  /\ exists e, hex_to_rgb "#12G456" = Raise e /\ exn_cls e = ValueError
       /\ forall txt size font_size color subtext,
            create_text_image env_none txt size font_size color "#12G456"
                              subtext = Raise e.
Proof.
  split; [|split].
  - destruct (hex_to_rgb_failure_propagates env_none Uni.unicode_14
                (Uni.encode "1+2345")) as (H & _).
    apply (proj2 H). reflexivity.
  - destruct (hex_to_rgb_failure_propagates env_none Uni.unicode_14
                [65297; 65298; 51; 52; 53; 54; 55]%N) as (_ & _ & H & _).
    apply H. reflexivity.
  - destruct (hex_to_rgb_failure_propagates env_none Uni.unicode_14
                (Uni.encode "#12G456")) as (_ & _ & _ & _ & B & P).
    apply (P "#12G456" eq_refl eq_refl).
    apply (B 2%nat 71%N); [lia | reflexivity | reflexivity].
Defined.

(* ===================================================================== *)
(** ** Properties of the font resolver                                    *)
(* ===================================================================== *)

Section FontResolverFacts.

Variable env : Env.

Lemma try_load_full (path : string) (sizes : list Z) (fs : list font) :
  load_all env path sizes = Some fs ->
  forall vars, List.length vars = List.length sizes ->
  try_load env path sizes vars = (map Some fs, true).
Proof.
  revert fs. induction sizes as [|s sizes IH]; intros fs L vars Hl.
  - destruct vars; [|discriminate]. injection L as <-. reflexivity.
  - destruct vars as [|v vars]; [discriminate|]. simpl in *.
    destruct (truetype env path s) as [f|e]; [|discriminate].
    destruct (load_all env path sizes) as [fs'|]; [|discriminate].
    injection L as <-. rewrite (IH fs' eq_refl vars) by lia. reflexivity.
Qed.

Lemma try_load_partial (path : string) (sizes : list Z) :
  load_all env path sizes = None ->
  forall vars, List.length vars = List.length sizes ->
  snd (try_load env path sizes vars) = false
  /\ List.length (fst (try_load env path sizes vars)) = List.length sizes.
Proof.
  induction sizes as [|s sizes IH]; intros L vars Hl; [discriminate|].
  destruct vars as [|v vars]; [discriminate|]. simpl in *.
  destruct (truetype env path s) as [f|e].
  - destruct (load_all env path sizes) as [fs'|] eqn:E; [discriminate|].
    destruct (IH eq_refl vars) as [H1 H2]; [lia|].
    destruct (try_load env path sizes vars) as [vars' done]. simpl in *.
    split; [exact H1 | lia].
  - simpl. split; [reflexivity | lia].
Qed.

(** The loop stops at the first usable file and returns its handles,
    whatever earlier files left in the variables. *)
Lemma probe_first_usable (sizes : list Z) (before after : list string)
      (path : string) (fs : list font) :
  (forall q, In q before -> usable env sizes q = false) ->
  path_exists env path = true ->
  load_all env path sizes = Some fs ->
  forall vars, List.length vars = List.length sizes ->
  probe env (before ++ path :: after) sizes vars = map Some fs.
Proof.
  intros Hb Hp Hl. induction before as [|q before IH]; intros vars Hv; simpl.
  - rewrite Hp, (try_load_full path sizes fs Hl vars Hv). reflexivity.
  - assert (Hq := Hb q (or_introl eq_refl)). unfold usable in Hq.
    assert (Hb' : forall q', In q' before -> usable env sizes q' = false)
      by (intros q' Hin; apply Hb; now right).
    destruct (path_exists env q); [|now apply IH].
    destruct (load_all env q sizes) as [fs'|] eqn:E; [discriminate|].
    destruct (try_load_partial q sizes E vars Hv) as [H1 H2].
    destruct (try_load env q sizes vars) as [vars' done]. simpl in *.
    subst done. apply IH; [exact Hb' | lia].
Qed.

(** First part of C2: the handles come from the first file that exists
    and loads at every size. *)
Lemma resolve_fonts_first_usable (sizes : list Z) (before after : list string)
      (path : string) (fs : list font) :
  (forall q, In q before -> usable env sizes q = false) ->
  path_exists env path = true ->
  load_all env path sizes = Some fs ->
  resolve_fonts env (before ++ path :: after) sizes = map Some fs.
Proof.
  intros Hb Hp Hl. unfold resolve_fonts.
  rewrite (probe_first_usable sizes before after path fs Hb Hp Hl)
    by (now rewrite length_map).
  now destruct fs.
Qed.

Lemma probe_none (sizes : list Z) (paths : list string) :
  (forall q, In q paths -> loads_first env sizes q = false) ->
  probe env paths sizes (map (fun _ => None) sizes)
  = map (fun _ => None) sizes.
Proof.
  intros H. induction paths as [|q paths IH]; [reflexivity|]. simpl.
  assert (Hq := H q (or_introl eq_refl)). unfold loads_first in Hq.
  assert (H' : forall q', In q' paths -> loads_first env sizes q' = false)
    by (intros q' Hin; apply H; now right).
  destruct (path_exists env q); [|now apply IH].
  destruct sizes as [|s sizes]; [discriminate|]. simpl in *.
  destruct (truetype env q s); [discriminate|]. now apply IH.
Qed.

(** Fallback, as far as it holds: when no file loads at the FIRST size,
    every variable holds the default font. *)
Lemma resolve_fonts_default (sizes : list Z) (paths : list string) :
  (forall q, In q paths -> loads_first env sizes q = false) ->
  resolve_fonts env paths sizes = map (fun _ => Some DefaultFont) sizes.
Proof.
  intros H. unfold resolve_fonts. rewrite (probe_none sizes paths H).
  destruct sizes as [|s sizes]; [reflexivity|]. simpl.
  now rewrite map_map.
Qed.

End FontResolverFacts.

(** C2 fails on a partial load.  [create_text_image] called with
    [font_size = 1] asks for the sizes 1 and 1 // 2 = 0.  On a host whose
    loader refuses size 0, no file loads at every size, yet the result is
    not the default font for both sizes: the first variable keeps the
    handle loaded before the failure and the second is left unset. *)
Theorem resolve_fonts_partial_load :
  (forall q, In q text_image_fonts -> usable env_sized [1; 1 / 2] q = false)
  /\ resolve_fonts env_sized text_image_fonts [1; 1 / 2]
     = [Some (FreeTypeFont "/System/Library/Fonts/PingFang.ttc" 1); None]
  /\ resolve_fonts env_sized text_image_fonts [1; 1 / 2]
     <> [Some DefaultFont; Some DefaultFont].
Proof.
  split; [|split].
  - intros q Hq. simpl in Hq.
    repeat (destruct Hq as [<- | Hq]; [reflexivity|]). destruct Hq.
  - reflexivity.
  - vm_compute. discriminate.
Qed.

(* ===================================================================== *)
(** ** Properties of the comparison chart                                 *)
(* ===================================================================== *)

Lemma in_count_from (n : nat) (start t : Z) :
  start <= t < start + Z.of_nat n -> In t (count_from n start).
Proof.
  revert start. induction n as [|n IH]; intros start H; [lia|].
  cbn [count_from]. destruct (Z.eq_dec start t) as [E|E]; [now left|].
  right. apply IH. lia.
Qed.

Lemma width_check_all : forallb width_check token_range = true.
Proof. vm_compute. reflexivity. Qed.

Lemma bar_width_exact (tokens : Z) :
  0 <= tokens <= max_tokens ->
  exists w, bar_width tokens = Ok w
            /\ (w = exact_width tokens
                \/ (In tokens float_short /\ w = exact_width tokens - 1)).
Proof.
  intros H. unfold max_tokens in H.
  assert (K : In tokens token_range).
  { apply in_count_from. unfold max_tokens. lia. }
  pose proof (proj1 (forallb_forall _ _) width_check_all tokens K) as C.
  unfold width_check in C.
  destruct (bar_width tokens) as [w|e]; [|discriminate].
  exists w. split; [reflexivity|].
  destruct (existsb (Z.eqb tokens) float_short) eqn:E.
  - right. apply existsb_exists in E. destruct E as (t & Ht & Et).
    apply Z.eqb_eq in Et. subst t. split; [exact Ht | now apply Z.eqb_eq].
  - left. now apply Z.eqb_eq.
Qed.

(** C5: the width of the foreground bar is the linear map
    [tokens / max_tokens * bar_max_width] computed in binary64 and cut to
    an integer.  The maximum 15000 gives exactly 800 and zero gives 0; for
    every count between 0 and the maximum the width is at most the exact
    value and less than one pixel and a bit below it (it is the integer
    part of the exact value, except at seven counts where the exact value
    is an integer and the float product falls just short of it); in the
    chart the three bars start at x = 400 and end at 400 plus their
    width. *)
Theorem bar_width_linear :
  bar_width max_tokens = Ok bar_max_width
  /\ bar_width 15000 = Ok 800
  /\ bar_width 0 = Ok 0
  /\ (forall tokens, 0 <= tokens <= max_tokens ->
        exists w, bar_width tokens = Ok w
                  /\ w * max_tokens <= tokens * bar_max_width
                     <= (w + 1) * max_tokens
                  /\ (In tokens float_short \/ w = exact_width tokens))
  /\ (forall env, exists f,
        create_comparison_chart env = Ok f
        /\ bar_edges (im_ops (pixels f))
           = [(400, 400 + 800); (400, 400 + 533); (400, 400 + 266)]).
Proof.
  split; [reflexivity|]. split; [reflexivity|]. split; [reflexivity|]. split.
  - intros tokens H. destruct (bar_width_exact tokens H) as (w & E & C).
    exists w. split; [exact E|].
    unfold exact_width, max_tokens, bar_max_width in *.
    pose proof (Z.div_mod (tokens * 800) 15000).
    pose proof (Z.mod_pos_bound (tokens * 800) 15000).
    destruct C as [-> | [Hin ->]].
    + split; [lia | now right].
    + split; [|now left].
      simpl in Hin.
      repeat (destruct Hin as [<- | Hin]; [vm_compute; split; discriminate|]).
      destruct Hin.
  - intros env. unfold create_comparison_chart.
    generalize (resolve_fonts env sans_fonts [48; 32; 28]). intros fonts.
    vm_compute. eexists. split; reflexivity.
Qed.

(** The float product can fall short: 2175 tokens are exactly 116 pixels,
    and the bar is 115 pixels wide. *)
Lemma bar_width_short :
  bar_width 2175 = Ok 115 /\ 2175 * bar_max_width = 116 * max_tokens.
Proof. split; reflexivity. Qed.

Lemma bar_width_linear_witness :
  exists w, bar_width 10000 = Ok w
            /\ w * max_tokens <= 10000 * bar_max_width <= (w + 1) * max_tokens
            /\ (In 10000 float_short \/ w = exact_width 10000).
Proof.
  destruct bar_width_linear as (_ & _ & _ & H & _).
  apply (H 10000). unfold max_tokens. lia.
Defined.

(* ===================================================================== *)
(** ** Properties of the terminal scene                                   *)
(* ===================================================================== *)

Lemma text_rows_app (a b : list draw_op) :
  text_rows (a ++ b) = (text_rows a ++ text_rows b)%list.
Proof.
  induction a as [|op a IH]; [reflexivity|].
  destruct op as [[x y] t fl fn| | |]; simpl; now rewrite IH.
Qed.

(** A blank entry changes nothing, the cursor included; a non-blank entry
    is drawn at the cursor, which then moves by one pitch. *)
Lemma terminal_lines_blank (fnt : option font) (color : string)
      (rest : list (string * string)) (x y : Z) (img : image) :
  terminal_lines fnt (("", color) :: rest) x y img
  = terminal_lines fnt rest x y img.
Proof. reflexivity. Qed.

(** The cursor after the loop counts the non-blank entries only. *)
Lemma terminal_lines_cursor (fnt : option font)
      (cmds : list (string * string)) (x y : Z) (img img' : image) (y' : Z) :
  terminal_lines fnt cmds x y img = Ok (img', y') ->
  y' = y + line_pitch * shown cmds.
Proof.
  revert y img. induction cmds as [|[txt color] cmds IH]; intros y img H.
  - injection H as _ <-. unfold shown. simpl. lia.
  - cbn [terminal_lines] in H. unfold shown in *. cbn [filter fst].
    destruct (truthy txt).
    + destruct (hex_to_rgb color) as [c|e]; [|discriminate].
      cbn [rbind] in H. apply IH in H. rewrite H.
      cbn [List.length]. lia.
    + now apply IH in H.
Qed.

(** C1 does not hold on the code: the cursor moves inside the test for a
    non-blank text, so a blank entry leaves it where it was.  In the
    scene, the sixteen entries (four of them blank) give twelve rows, one
    pitch apart, and the entry number 4, the first after a blank one, is
    drawn at 200 where the specification puts it at 240; the cursor ends at
    560, not at 720. *)
Theorem terminal_blank_keeps_cursor :
  (forall fnt color rest x y img,
     terminal_lines fnt (("", color) :: rest) x y img
     = terminal_lines fnt rest x y img)
  /\ (forall env, exists f,
        create_terminal_scene env = Ok f
        /\ text_rows (im_ops (pixels f))
           = [ ("$ ", 80);
               ("git clone https://github.com/Ricardo-M-L/synapse-ai.git", 120);
               ("$ ", 160);
               ("cd synapse-ai && npm install", 200);
               ("$ ", 240);
               ("npm run build", 280);
               ("✓ Built successfully in 2.34s", 320);
               ("$ ", 360);
               ("npm run cli -- chat", 400);
               ("🧠 Synapse AI 已启动！", 440);
               ("提示: 输入 /help 查看可用命令", 480);
               ("synapse> ", 520) ])
  /\ (forall fnt img, exists img',
        terminal_lines fnt commands 40 80 img = Ok (img', 560))
  /\ nth_error commands 4
     = Some ("cd synapse-ai && npm install", "#F8FAFC")
  /\ pitched_row 4 = 240
  /\ pitched_row (Z.of_nat (List.length commands)) = 720.
Proof.
  split; [reflexivity|]. split; [|split; [|repeat split]].
  - intros env. unfold create_terminal_scene.
    generalize (resolve_fonts env mono_fonts [28; 32]). intros fonts.
    vm_compute. eexists. split; reflexivity.
  - intros fnt img. vm_compute. eexists. reflexivity.
Qed.

(* ===================================================================== *)
(** ** Properties of the chat scene                                       *)
(* ===================================================================== *)

Lemma bubble_spans_app (a b : list draw_op) :
  bubble_spans (a ++ b) = (bubble_spans a ++ bubble_spans b)%list.
Proof.
  induction a as [|op a IH]; [reflexivity|].
  destruct op as [| | |[[[x0 y0] x1] y1] r fl]; simpl; now rewrite IH.
Qed.

Lemma hex_text : hex_to_rgb (COLORS K.text) = Ok (248, 250, 252).
Proof. reflexivity. Qed.

Lemma hex_primary : hex_to_rgb (COLORS K.primary) = Ok (59, 130, 246).
Proof. reflexivity. Qed.

Lemma hex_slate : hex_to_rgb "#334155" = Ok (51, 65, 85).
Proof. reflexivity. Qed.

(** The lines of a bubble are always drawn, and add no bubble. *)
Lemma bubble_lines_ok (fnt : option font) (lines : list string)
      (x text_y : Z) (img : image) :
  exists img', bubble_lines fnt lines x text_y img = Ok img'
               /\ bubble_spans (im_ops img') = bubble_spans (im_ops img).
Proof.
  revert text_y img. induction lines as [|line lines IH]; intros text_y img.
  - exists img. split; reflexivity.
  - cbn [bubble_lines]. rewrite hex_text. cbn [rbind].
    destruct (IH (text_y + line_height) (draw_text img (x, text_y) line
                                                   (248, 250, 252) fnt))
      as (img' & E & S).
    exists img'. split; [exact E|]. rewrite S.
    unfold draw_text, draw. cbn [im_ops]. rewrite bubble_spans_app.
    simpl. apply app_nil_r.
Qed.

Lemma box_height_bubble (r : role) (content : string) :
  box_height (split "010"%char content) = bubble_height (r, content).
Proof.
  unfold box_height, bubble_height, line_count, line_height, padding.
  cbn [snd]. lia.
Qed.

(** One turn of the loop over the messages. *)
Lemma chat_bubbles_step (fnt : option font) (m : role * string)
      (rest : list (role * string)) (y : Z) (img : image) :
  exists img1,
    chat_bubbles fnt (m :: rest) y img
    = chat_bubbles fnt rest (y + (bubble_height m + bubble_gap)) img1
    /\ bubble_spans (im_ops img1)
       = (bubble_spans (im_ops img) ++ [(y, y + bubble_height m)])%list.
Proof.
  destruct m as [r content]. cbn [chat_bubbles]. cbv zeta.
  rewrite (box_height_bubble r content).
  destruct r.
  - cbv iota beta. rewrite hex_primary. cbn [rbind].
    match goal with |- context [bubble_lines ?f ?l ?x ?ty ?i] =>
      destruct (bubble_lines_ok f l x ty i) as (img1 & E & S) end.
    exists img1. rewrite E. cbn [rbind]. split; [reflexivity|].
    rewrite S. unfold draw. cbn [im_ops]. rewrite bubble_spans_app. reflexivity.
  - cbv iota beta. rewrite hex_slate. cbn [rbind].
    match goal with |- context [bubble_lines ?f ?l ?x ?ty ?i] =>
      destruct (bubble_lines_ok f l x ty i) as (img1 & E & S) end.
    exists img1. rewrite E. cbn [rbind]. split; [reflexivity|].
    rewrite S. unfold draw. cbn [im_ops]. rewrite bubble_spans_app. reflexivity.
Qed.

Lemma chat_bubbles_layout (fnt : option font) (msgs : list (role * string))
      (y : Z) (img : image) :
  exists img',
    chat_bubbles fnt msgs y img
    = Ok (img', y + sum (map (fun m => bubble_height m + 25) msgs))
    /\ bubble_spans (im_ops img')
       = (bubble_spans (im_ops img) ++ expected_spans msgs y)%list.
Proof.
  revert y img. induction msgs as [|m msgs IH]; intros y img.
  - exists img. simpl. rewrite Z.add_0_r, app_nil_r. split; reflexivity.
  - destruct (chat_bubbles_step fnt m msgs y img) as (img1 & E & S).
    destruct (IH (y + (bubble_height m + bubble_gap)) img1) as (img' & E' & S').
    exists img'. rewrite E, E'. split.
    + f_equal. f_equal. unfold bubble_gap. cbn [map sum fold_right].
      fold (sum (map (fun m0 => bubble_height m0 + 25) msgs)). lia.
    + rewrite S', S, <- app_assoc. cbn [expected_spans app].
      unfold bubble_gap. now rewrite Z.add_assoc.
Qed.

Lemma split_newlines (n : nat) :
  List.length (split "010"%char (newlines n)) = S n.
Proof.
  induction n as [|n IH]; [reflexivity|].
  cbn [newlines split]. rewrite Ascii.eqb_refl. cbn [List.length]. now rewrite IH.
Qed.

(** C4: a bubble is as high as its line count times 30 plus twice 15; the
    cursor after the bubbles of any list of messages is the start plus the
    sum of their heights and of the gap of 25 after each; every bubble is
    drawn from the cursor down to the cursor plus its height; every
    sequence of line counts (at least one line each) occurs; and in the
    scene the hint under the last bubble is drawn 15 below the cursor. *)
Theorem chat_cursor_is_sum :
  (forall lines,
     box_height lines = Z.of_nat (List.length lines) * 30 + 2 * 15)
  /\ (forall fnt msgs img, exists img',
        chat_bubbles fnt msgs chat_start_y img
        = Ok (img', 120 + sum (map (fun m => bubble_height m + 25) msgs))
        /\ bubble_spans (im_ops img')
           = (bubble_spans (im_ops img) ++ expected_spans msgs 120)%list)
  /\ (forall counts : list nat, exists msgs : list (role * string),
        map (fun m => line_count (snd m)) msgs
        = map (fun n => Z.of_nat (S n)) counts)
  /\ (forall env, exists f,
        create_chat_demo_scene env = Ok f
        /\ bubble_spans (im_ops (pixels f))
           = [(120, 180); (205, 415); (440, 500); (525, 765)]
        /\ last (text_rows (im_ops (pixels f))) ("", 0)
           = ("使用了持久化记忆 | .synapse/memories/project-arch.md",
              120 + sum (map (fun m => bubble_height m + 25) messages) + 15)).
Proof.
  split; [|split; [|split]].
  - intros lines. reflexivity.
  - intros fnt msgs img. apply chat_bubbles_layout.
  - intros counts. exists (map (fun n => (user, newlines n)) counts).
    rewrite map_map. apply map_ext. intros n. cbn [snd].
    unfold line_count. now rewrite split_newlines.
  - intros env. unfold create_chat_demo_scene.
    generalize (resolve_fonts env sans_fonts [36; 24; 20]). intros fonts.
    vm_compute. eexists. repeat split; reflexivity.
Qed.

(* ===================================================================== *)
(** ** Properties of the frames                                           *)
(* ===================================================================== *)

Section Frames.

Variable env : Env.

Ltac run_renderer :=
  match goal with
  | |- context [resolve_fonts env ?p ?s] =>
      generalize (resolve_fonts env p s); intros fonts
  end;
  vm_compute; eexists; repeat split; reflexivity.

Lemma hook_frame : exists f, hook_call env = Ok f /\ full_frame f.
Proof. unfold hook_call, create_text_image. run_renderer. Qed.

Lemma logo_frame : exists f, create_logo_scene env = Ok f /\ full_frame f.
Proof. unfold create_logo_scene. run_renderer. Qed.

Lemma terminal_frame :
  exists f, create_terminal_scene env = Ok f /\ full_frame f.
Proof. unfold create_terminal_scene. run_renderer. Qed.

Lemma chat_frame :
  exists f, create_chat_demo_scene env = Ok f /\ full_frame f.
Proof. unfold create_chat_demo_scene. run_renderer. Qed.

Lemma chart_frame :
  exists f, create_comparison_chart env = Ok f /\ full_frame f.
Proof. unfold create_comparison_chart. run_renderer. Qed.

Lemma closing_frame :
  exists f, create_github_end_scene env = Ok f /\ full_frame f.
Proof. unfold create_github_end_scene. run_renderer. Qed.

(** The six renderers all return, each a frame of the fixed resolution. *)
Lemma scene_frames :
  exists f1 f2 f3 f4 f5 f6,
    scene_calls env = [Ok f1; Ok f2; Ok f3; Ok f4; Ok f5; Ok f6]
    /\ Forall full_frame [f1; f2; f3; f4; f5; f6].
Proof.
  destruct hook_frame as (f1 & E1 & F1). destruct logo_frame as (f2 & E2 & F2).
  destruct terminal_frame as (f3 & E3 & F3).
  destruct chat_frame as (f4 & E4 & F4).
  destruct chart_frame as (f5 & E5 & F5).
  destruct closing_frame as (f6 & E6 & F6).
  exists f1, f2, f3, f4, f5, f6. split.
  - unfold scene_calls. rewrite E1, E2, E3, E4, E5, E6. reflexivity.
  - repeat (apply Forall_cons; [assumption|]). apply Forall_nil.
Qed.

(** Whatever its arguments, [create_text_image] returns a frame of the
    size it was given. *)
Lemma create_text_image_shape (txt : string) (size : Z * Z) (font_size : Z)
      (color bg_color : string) (subtext : option string) (f : frame) :
  create_text_image env txt size font_size color bg_color subtext = Ok f ->
  shape f = (snd size, fst size, 3) /\ im_size (pixels f) = size.
Proof.
  unfold create_text_image.
  destruct (hex_to_rgb bg_color) as [bg|e]; [|discriminate]. cbn [rbind].
  unfold Image_new.
  destruct ((fst size <? 0) || (snd size <? 0)); [discriminate|].
  cbn [rbind].
  destruct (hex_to_rgb color) as [c|e]; [|discriminate]. cbn [rbind].
  destruct subtext as [st|].
  - destruct (truthy st).
    + destruct (hex_to_rgb (COLORS K.text_muted)) as [c2|e]; [|discriminate].
      cbn [rbind]. intros H. injection H as <-. split; reflexivity.
    + intros H. injection H as <-. split; reflexivity.
  - intros H. injection H as <-. split; reflexivity.
Qed.

(** The run of [generate_video]: the progress lines, the export call on
    the assembled timeline and, unless the encoder raises, the summary. *)
Lemma generate_video_run (f1 f2 f3 f4 f5 f6 : frame) :
  scene_calls env = [Ok f1; Ok f2; Ok f3; Ok f4; Ok f5; Ok f6] ->
  Forall full_frame [f1; f2; f3; f4; f5; f6] ->
  generate_video env []
  = match encoder_error env output_path with
    | Some e =>
        (Raise e,
         (progress_lines ++ [export_call (assembled f1 f2 f3 f4 f5 f6)])%list)
    | None =>
        (Ok tt,
         (progress_lines ++ [export_call (assembled f1 f2 f3 f4 f5 f6)]
            ++ summary_lines)%list)
    end.
Proof.
  intros E F.
  assert (E1 := f_equal (fun l => nth 0 l (Ok f1)) E).
  assert (E2 := f_equal (fun l => nth 1 l (Ok f1)) E).
  assert (E3 := f_equal (fun l => nth 2 l (Ok f1)) E).
  assert (E4 := f_equal (fun l => nth 3 l (Ok f1)) E).
  assert (E5 := f_equal (fun l => nth 4 l (Ok f1)) E).
  assert (E6 := f_equal (fun l => nth 5 l (Ok f1)) E).
  cbv beta iota delta [nth scene_calls hook_call] in E1, E2, E3, E4, E5, E6.
  clear E.
  assert (S1 : shape f1 = (1080, 1920, 3)).
  { apply (proj1 (Forall_forall _ _) F). simpl. tauto. }
  assert (S2 : shape f2 = (1080, 1920, 3)).
  { apply (proj1 (Forall_forall _ _) F). simpl. tauto. }
  assert (S3 : shape f3 = (1080, 1920, 3)).
  { apply (proj1 (Forall_forall _ _) F). simpl. tauto. }
  assert (S4 : shape f4 = (1080, 1920, 3)).
  { apply (proj1 (Forall_forall _ _) F). simpl. tauto. }
  assert (S5 : shape f5 = (1080, 1920, 3)).
  { apply (proj1 (Forall_forall _ _) F). simpl. tauto. }
  assert (S6 : shape f6 = (1080, 1920, 3)).
  { apply (proj1 (Forall_forall _ _) F). simpl. tauto. }
  clear F.
  cbv beta iota zeta
      delta [generate_video sbind print emit lift sret write_videofile].
  rewrite E1, E2, E3, E4, E5, E6.
  cbv beta iota zeta.
  cbv beta iota zeta
      delta [concatenate_videoclips lay_out with_effects with_duration
             ImageClip clip_size clip_frame clip_duration clip_effects
             rbind app map fold_right fst snd].
  rewrite S1, S2, S3, S4, S5, S6.
  destruct (encoder_error env output_path) as [e|]; vm_compute; reflexivity.
Qed.

End Frames.

(** The export call of a run is made on the timeline assembled from the
    frames the renderers returned. *)
Lemma renderers_frames_in_export (env : Env) :
  exists f1 f2 f3 f4 f5 f6,
    scene_calls env = [Ok f1; Ok f2; Ok f3; Ok f4; Ok f5; Ok f6]
    /\ Forall full_frame [f1; f2; f3; f4; f5; f6]
    /\ In (export_call (assembled f1 f2 f3 f4 f5 f6)) (snd (main env)).
Proof.
  destruct (scene_frames env) as (f1 & f2 & f3 & f4 & f5 & f6 & E & F).
  exists f1, f2, f3, f4, f5, f6.
  split; [exact E|]. split; [exact F|].
  unfold main, guarded. rewrite (generate_video_run env _ _ _ _ _ _ E F).
  destruct (encoder_error env output_path) as [e|].
  - destruct (derives_from_Exception (exn_cls e)); cbn [snd];
      rewrite ?in_app_iff; simpl; tauto.
  - cbn [snd]. rewrite !in_app_iff. simpl. tauto.
Qed.

(** C9: each of the six renderers, as [generate_video] calls it, returns
    a frame of 1920 by 1080 pixels (an array of 1080 rows, 1920 columns
    and three channels); [create_text_image] returns a frame of whatever
    size it is given; and the frames shown by the timeline handed to the
    exporter are the very frames the renderers returned, in order:
    nothing touches them in between. *)
Theorem renderers_return_full_frames (env : Env) :
  exists f1 f2 f3 f4 f5 f6 final,
    scene_calls env = [Ok f1; Ok f2; Ok f3; Ok f4; Ok f5; Ok f6]
    /\ Forall full_frame [f1; f2; f3; f4; f5; f6]
    /\ In (export_call final) (snd (main env))
    /\ frames_of final = [f1; f2; f3; f4; f5; f6]
    /\ (forall txt size font_size color bg_color subtext f,
          create_text_image env txt size font_size color bg_color subtext
          = Ok f ->
          shape f = (snd size, fst size, 3) /\ im_size (pixels f) = size).
Proof.
  destruct (renderers_frames_in_export env)
    as (f1 & f2 & f3 & f4 & f5 & f6 & E & F & Hin).
  exists f1, f2, f3, f4, f5, f6, (assembled f1 f2 f3 f4 f5 f6).
  split; [exact E|]. split; [exact F|]. split; [exact Hin|].
  split; [reflexivity|]. apply create_text_image_shape.
Qed.

Lemma renderers_return_full_frames_witness :
  exists f,
    create_text_image env_none "Synapse AI" (640, 480) 60 "#F8FAFC" "#0F172A"
                      None = Ok f
    /\ shape f = (480, 640, 3) /\ im_size (pixels f) = (640, 480).
Proof.
  destruct (renderers_return_full_frames env_none)
    as (f1 & f2 & f3 & f4 & f5 & f6 & final & _ & _ & _ & _ & H).
  destruct (create_text_image env_none "Synapse AI" (640, 480) 60 "#F8FAFC"
                              "#0F172A" None) as [f|e] eqn:E;
    [|vm_compute in E; discriminate].
  exists f. split; [reflexivity|].
  exact (H "Synapse AI" (640, 480) 60 "#F8FAFC" "#0F172A" None f E).
Defined.

(* ===================================================================== *)
(** ** Properties of the timeline                                         *)
(* ===================================================================== *)

Lemma lay_out_total (clips : list clip) (t : Z)
      (layers : list (Z * clip)) (t' : Z) :
  lay_out clips t = Ok (layers, t') -> t' = t + total_duration clips.
Proof.
  revert t layers t'. unfold total_duration.
  induction clips as [|c clips IH]; intros t layers t' H.
  - injection H as _ <-. simpl. lia.
  - cbn [lay_out] in H. cbn [map sum fold_right].
    destruct (clip_duration c) as [d|]; [|discriminate].
    destruct (lay_out clips (t + d)) as [[ls t1]|e] eqn:E; [|discriminate].
    cbn [rbind fst snd] in H. injection H as _ <-.
    apply IH in E. unfold sum in E. lia.
Qed.

Lemma lay_out_refade (effs : clip -> list effect) (clips : list clip) (t : Z) :
  lay_out (map (refade effs) clips) t
  = (r <- lay_out clips t ;;
     Ok (map (fun l => (fst l, refade effs (snd l))) (fst r), snd r)).
Proof.
  revert t. induction clips as [|c clips IH]; intros t; [reflexivity|].
  cbn [map lay_out refade clip_duration].
  destruct (clip_duration c) as [d|]; [|reflexivity].
  rewrite IH. destruct (lay_out clips (t + d)) as [[ls t1]|e]; reflexivity.
Qed.

(** The duration of a concatenation is the sum of the durations of its
    clips, and other fades give the same duration. *)
Lemma concatenate_duration (clips : list clip) (final : composite) :
  concatenate_videoclips clips = Ok final ->
  comp_duration final = total_duration clips
  /\ forall effs, exists final',
       concatenate_videoclips (map (refade effs) clips) = Ok final'
       /\ comp_duration final' = comp_duration final
       /\ map fst (comp_layers final') = map fst (comp_layers final).
Proof.
  unfold concatenate_videoclips. destruct clips as [|c clips]; [discriminate|].
  destruct (lay_out (c :: clips) 0) as [[ls t1]|e] eqn:E; [|discriminate].
  cbn [rbind fst snd]. intros H. injection H as <-. cbn [comp_duration].
  split; [apply (lay_out_total _ _ _ _ E)|].
  intros effs. change (map (refade effs) (c :: clips))
    with (refade effs c :: map (refade effs) clips).
  cbv iota. change (refade effs c :: map (refade effs) clips)
    with (map (refade effs) (c :: clips)).
  rewrite lay_out_refade, E. cbn [rbind fst snd].
  eexists. split; [reflexivity|]. cbn [comp_duration comp_layers].
  split; [reflexivity|]. rewrite map_map. reflexivity.
Qed.

(** C3: the timeline handed to the exporter shows the six scenes in the
    order hook, logo, terminal, chat, chart, closing, for 3, 5, 6, 8, 6 and
    5 seconds, one starting where the other ends; it lasts 33 seconds,
    which is 990 frames at 30 frames per second; and the duration of a
    concatenation is the sum of the durations of its clips whatever their
    fades are. *)
Theorem timeline_duration (env : Env) :
  (exists final,
     In (export_call final) (snd (main env))
     /\ map (fun f => Ok f) (frames_of final) = scene_calls env
     /\ schedule final
        = [(0, Some 3); (3, Some 5); (8, Some 6); (14, Some 8); (22, Some 6);
           (28, Some 5)]
     /\ comp_duration final = 3 + 5 + 6 + 8 + 6 + 5
     /\ comp_duration final = 33
     /\ frame_count final FPS = 990)
  /\ (forall clips final,
        concatenate_videoclips clips = Ok final ->
        comp_duration final = total_duration clips
        /\ forall effs, exists final',
             concatenate_videoclips (map (refade effs) clips) = Ok final'
             /\ comp_duration final' = comp_duration final
             /\ map fst (comp_layers final') = map fst (comp_layers final)).
Proof.
  split; [|exact concatenate_duration].
  destruct (renderers_frames_in_export env)
    as (f1 & f2 & f3 & f4 & f5 & f6 & E & _ & Hin).
  exists (assembled f1 f2 f3 f4 f5 f6). split; [exact Hin|].
  split; [exact (eq_sym E)|]. repeat split; reflexivity.
Qed.

Lemma timeline_duration_witness :
  exists final,
    concatenate_videoclips two_clips = Ok final
    /\ comp_duration final = total_duration two_clips
    /\ exists final',
         concatenate_videoclips
           (map (refade (fun _ => [FadeOut one_and_half])) two_clips)
         = Ok final'
         /\ comp_duration final' = comp_duration final
         /\ map fst (comp_layers final') = map fst (comp_layers final).
Proof.
  destruct (concatenate_videoclips two_clips) as [final|e] eqn:E;
    [|vm_compute in E; discriminate].
  exists final. split; [reflexivity|].
  destruct (proj2 (timeline_duration env_none) two_clips final E) as [H1 H2].
  split; [exact H1|]. apply H2.
Defined.

(* ===================================================================== *)
(** ** Properties of the entry point                                      *)
(* ===================================================================== *)

Lemma handler_runs_app (a b : list event) :
  handler_runs (a ++ b) = (handler_runs a + handler_runs b)%nat.
Proof. unfold handler_runs. now rewrite filter_app, length_app. Qed.

(** An exception raised by a statement ends the statements after it and
    keeps what was printed so far. *)
Lemma sbind_raises {A B} (m : Script A) (k : A -> Script B)
      (out out' : list event) (e : exn) :
  m out = (Raise e, out') -> sbind m k out = (Raise e, out').
Proof. intros H. unfold sbind. now rewrite H. Qed.

Lemma guarded_returns (body : Script unit) (u : unit) (out : list event) :
  body [] = (Ok u, out) -> guarded body = (Exit 0, out).
Proof. intros H. unfold guarded. now rewrite H. Qed.

Lemma guarded_raises (body : Script unit) (e : exn) (out : list event) :
  body [] = (Raise e, out) ->
  derives_from_Exception (exn_cls e) = true ->
  guarded body = (Exit 1, (out ++ report e)%list).
Proof. intros H D. unfold guarded. now rewrite H, D. Qed.

(** An exception that does not derive from [Exception] is not caught. *)
Lemma guarded_not_caught (body : Script unit) (e : exn) (out : list event) :
  body [] = (Raise e, out) ->
  derives_from_Exception (exn_cls e) = false ->
  guarded body = (Uncaught e, out).
Proof. intros H D. unfold guarded. now rewrite H, D. Qed.

Lemma handler_runs_progress (c : composite) :
  handler_runs (progress_lines ++ [export_call c]) = 0%nat.
Proof. reflexivity. Qed.

(** The run of the whole program on a host. *)
Lemma main_run (env : Env) :
  exists final,
    main env
    = match encoder_error env output_path with
      | None =>
          (Exit 0,
           (progress_lines ++ [export_call final] ++ summary_lines)%list)
      | Some e =>
          if derives_from_Exception (exn_cls e) then
            (Exit 1, ((progress_lines ++ [export_call final]) ++ report e)%list)
          else (Uncaught e, (progress_lines ++ [export_call final])%list)
      end.
Proof.
  destruct (scene_frames env) as (f1 & f2 & f3 & f4 & f5 & f6 & E & F).
  exists (assembled f1 f2 f3 f4 f5 f6).
  unfold main, guarded. rewrite (generate_video_run env _ _ _ _ _ _ E F).
  destruct (encoder_error env output_path) as [e|]; reflexivity.
Qed.

(** C8, as stated, fails: the handler is [except Exception], and an
    exception that does not derive from [Exception] passes it.  On a
    host where the export is interrupted from the keyboard the process
    does not end with status 1 through the handler. *)
Lemma keyboard_interrupt_escapes :
  ~ (forall env e,
       encoder_error env output_path = Some e ->
       fst (main env) = Exit 1 /\ handler_runs (snd (main env)) = 1%nat).
Proof.
  intros H. destruct (H env_interrupted _ eq_refl) as [E _].
  destruct (main_run env_interrupted) as [final R]. rewrite R in E.
  cbn in E. discriminate.
Qed.

(** C8 (amended): a script that returns ends the process with status 0; a
    script that raises an exception deriving from [Exception], which is
    what the handler catches, ends it with status 1, after the handler
    has printed the message and the trace of that exception, once, after
    everything the script printed.  For the program itself: status 0 and
    no report when the export succeeds, status 1 and one report when the
    encoder raises an exception deriving from [Exception]. *)
Theorem entry_point_exit_status :
  (forall body u out,
     body [] = (Ok u, out) -> guarded body = (Exit 0, out))
  /\ (forall body e out,
        body [] = (Raise e, out) ->
        derives_from_Exception (exn_cls e) = true ->
        guarded body = (Exit 1, (out ++ report e)%list)
        /\ handler_runs (snd (guarded body)) = S (handler_runs out))
  /\ (forall env,
        encoder_error env output_path = None ->
        fst (main env) = Exit 0 /\ handler_runs (snd (main env)) = 0%nat)
  /\ (forall env e,
        encoder_error env output_path = Some e ->
        derives_from_Exception (exn_cls e) = true ->
        fst (main env) = Exit 1
        /\ handler_runs (snd (main env)) = 1%nat
        /\ exists out, snd (main env) = (out ++ report e)%list).
Proof.
  split; [exact guarded_returns|]. split; [|split].
  - intros body e out H D. rewrite (guarded_raises body e out H D).
    split; [reflexivity|]. cbn [snd]. rewrite handler_runs_app.
    unfold report, handler_runs at 2. simpl. lia.
  - intros env H. destruct (main_run env) as [final ->]. rewrite H.
    split; reflexivity.
  - intros env e H D. destruct (main_run env) as [final ->]. rewrite H, D.
    split; [reflexivity|]. split.
    + cbn [snd]. rewrite handler_runs_app, handler_runs_progress.
      reflexivity.
    + eexists. reflexivity.
Qed.

Lemma entry_point_exit_status_witness :
  guarded (sret tt) = (Exit 0, [])
  /\ (exists e,
        guarded failing_script = (Exit 1, ([Print "start"] ++ report e)%list)
        /\ handler_runs (snd (guarded failing_script)) = 1%nat)
  /\ fst (main env_none) = Exit 0
  /\ fst (main env_unwritable) = Exit 1.
Proof.
  destruct entry_point_exit_status as (H1 & H2 & H3 & H4).
  split; [|split; [|split]].
  - apply (H1 (sret tt) tt []). reflexivity.
  - eexists.
    refine (H2 failing_script _ [Print "start"] _ _); reflexivity.
  - apply (H3 env_none). reflexivity.
  - refine (proj1 (H4 env_unwritable _ _ _)); reflexivity.
Defined.

(* ===================================================================== *)
(** ** Further properties of the font resolver                            *)
(* ===================================================================== *)

(** X1: First come, first served: the block returns the handles of the first
    listed file that exists and loads at every requested size, whatever
    the files before it left behind (missing, unreadable, or loaded at
    some of the sizes only) and whatever comes after it. *)
Theorem first_usable_font_wins (env : Env) (sizes : list Z)
        (before after : list string) (path : string) (fs : list font) :
  (forall q, In q before -> usable env sizes q = false) ->
  path_exists env path = true ->
  load_all env path sizes = Some fs ->
  resolve_fonts env (before ++ path :: after) sizes = map Some fs.
Proof. apply resolve_fonts_first_usable. Qed.

Lemma first_usable_font_wins_witness :
  resolve_fonts env_second sans_fonts [48; 32; 28]
  = map Some
        [ FreeTypeFont "/System/Library/Fonts/STHeiti Light.ttc" 48;
          FreeTypeFont "/System/Library/Fonts/STHeiti Light.ttc" 32;
          FreeTypeFont "/System/Library/Fonts/STHeiti Light.ttc" 28 ].
Proof.
  apply (first_usable_font_wins env_second [48; 32; 28]
           ["/System/Library/Fonts/PingFang.ttc"]
           ["/System/Library/Fonts/Helvetica.ttc"]
           "/System/Library/Fonts/STHeiti Light.ttc").
  - intros q [<- | []]. reflexivity.
  - reflexivity.
  - reflexivity.
Defined.

(** X2: When no listed file is there and loads at the first requested size
    (in particular when no listed file exists), every requested size gets
    the default font. *)
Theorem no_font_gives_default (env : Env) (sizes : list Z)
        (paths : list string) :
  (forall q, In q paths -> loads_first env sizes q = false) ->
  resolve_fonts env paths sizes = map (fun _ => Some DefaultFont) sizes.
Proof. apply resolve_fonts_default. Qed.

Lemma no_font_gives_default_witness :
  resolve_fonts env_none mono_fonts [28; 32]
  = map (fun _ => Some DefaultFont) [28; 32].
Proof.
  apply (no_font_gives_default env_none [28; 32] mono_fonts).
  intros q _. reflexivity.
Defined.

Section FontResolverInvariants.

Variable env : Env.

Lemma try_load_length (path : string) (sizes : list Z)
      (vars : list (option font)) :
  List.length (fst (try_load env path sizes vars)) = List.length vars.
Proof.
  revert vars. induction sizes as [|s sizes IH]; intros vars; [reflexivity|].
  destruct vars as [|v vars]; [reflexivity|]. cbn [try_load].
  destruct (truetype env path s) as [f|e]; [|reflexivity].
  specialize (IH vars).
  destruct (try_load env path sizes vars) as [vars' done]. cbn [fst] in *.
  cbn [List.length]. now rewrite IH.
Qed.

Lemma probe_length (paths : list string) (sizes : list Z)
      (vars : list (option font)) :
  List.length (probe env paths sizes vars) = List.length vars.
Proof.
  revert vars. induction paths as [|p paths IH]; intros vars; [reflexivity|].
  cbn [probe]. destruct (path_exists env p); [|apply IH].
  pose proof (try_load_length p sizes vars) as L.
  destruct (try_load env p sizes vars) as [vars' done]. cbn [fst] in L.
  destruct done; [exact L|]. rewrite IH. exact L.
Qed.

(** X3: The block leaves one value per requested size, and the first of them
    is always a font: a loaded handle or the default one.  Only the later
    variables can be left unset. *)
Theorem resolve_fonts_first_set (paths : list string) (s : Z)
        (sizes : list Z) :
  List.length (resolve_fonts env paths (s :: sizes)) = S (List.length sizes)
  /\ font_var (resolve_fonts env paths (s :: sizes)) 0 <> None.
Proof.
  unfold resolve_fonts, font_var.
  pose proof (probe_length paths (s :: sizes)
                (map (fun _ => None) (s :: sizes))) as L.
  rewrite length_map in L. cbn [List.length] in L.
  destruct (probe env paths (s :: sizes) (map (fun _ => None) (s :: sizes)))
    as [|[f|] vars]; [discriminate| |].
  - split; [exact L | discriminate].
  - split; [now rewrite length_map | discriminate].
Qed.

Lemma from_files_tail (paths : list string) (s : Z) (sizes : list Z)
      (v : option font) (vars : list (option font)) :
  from_files env paths (s :: sizes) (v :: vars) ->
  from_files env paths sizes vars.
Proof. intros H i f Hi. exact (H (S i) f Hi). Qed.

Lemma try_load_from_files (paths : list string) (path : string)
      (sizes : list Z) (vars : list (option font)) :
  In path paths -> path_exists env path = true ->
  from_files env paths sizes vars ->
  from_files env paths sizes (fst (try_load env path sizes vars)).
Proof.
  intros Hin Hex. revert vars.
  induction sizes as [|s sizes IH]; intros vars H; [exact H|].
  destruct vars as [|v vars]; [exact H|]. cbn [try_load].
  destruct (truetype env path s) as [f0|e] eqn:E; [|exact H].
  specialize (IH vars (from_files_tail paths s sizes v vars H)).
  destruct (try_load env path sizes vars) as [vars' done]. cbn [fst] in *.
  intros [|i] f Hi.
  - injection Hi as <-. exists path, s. now repeat split.
  - exact (IH i f Hi).
Qed.

Lemma probe_from_files (paths font_paths : list string) (sizes : list Z)
      (vars : list (option font)) :
  incl font_paths paths ->
  from_files env paths sizes vars ->
  from_files env paths sizes (probe env font_paths sizes vars).
Proof.
  revert vars. induction font_paths as [|p font_paths IH]; intros vars Hi H;
    [exact H|].
  assert (Hp : In p paths) by (apply Hi; now left).
  assert (Hi' : incl font_paths paths)
    by (intros q Hq; apply Hi; now right).
  cbn [probe]. destruct (path_exists env p) eqn:E; [|now apply IH].
  pose proof (try_load_from_files paths p sizes vars Hp E H) as H'.
  destruct (try_load env p sizes vars) as [vars' done]. cbn [fst] in H'.
  destruct done; [exact H' | now apply IH].
Qed.

(** X4: Where every handle comes from: a font returned by the block is the
    default font, or it was loaded from one of the listed files, one that
    exists, at the size requested at that position.  The block never
    loads a file that is missing, and never mixes up the sizes. *)
Theorem resolve_fonts_provenance (paths : list string) (sizes : list Z)
        (i : nat) (f : font) :
  nth_error (resolve_fonts env paths sizes) i = Some (Some f) ->
  f = DefaultFont
  \/ exists p s, In p paths /\ path_exists env p = true
                 /\ nth_error sizes i = Some s /\ truetype env p s = Ok f.
Proof.
  unfold resolve_fonts.
  assert (H : from_files env paths sizes
                (probe env paths sizes (map (fun _ => None) sizes))).
  { apply probe_from_files; [apply incl_refl|].
    intros j g Hj. rewrite nth_error_map in Hj.
    destruct (nth_error sizes j); discriminate. }
  destruct (probe env paths sizes (map (fun _ => None) sizes))
    as [|[f0|] vars] eqn:E.
  - intros Hi. right. exact (H i f Hi).
  - intros Hi. right. exact (H i f Hi).
  - intros Hi. left. rewrite nth_error_map in Hi.
    destruct (nth_error (None :: vars) i); [|discriminate].
    now injection Hi as <-.
Qed.

End FontResolverInvariants.

Lemma resolve_fonts_provenance_witness :
  FreeTypeFont "/System/Library/Fonts/STHeiti Light.ttc" 32 = DefaultFont
  \/ exists p s,
       In p sans_fonts /\ path_exists env_second p = true
       /\ nth_error [48; 32; 28] 1 = Some s
       /\ truetype env_second p s
          = Ok (FreeTypeFont "/System/Library/Fonts/STHeiti Light.ttc" 32).
Proof.
  apply (resolve_fonts_provenance env_second sans_fonts [48; 32; 28] 1).
  reflexivity.
Defined.

(* ===================================================================== *)
(** ** Further properties of the colour utility                           *)
(* ===================================================================== *)

Lemma kind_digit_range (c : ascii) (d : Z) : kind c = Digit d -> 0 <= d <= 15.
Proof.
  intros H. apply (digit_value_range c). unfold digit_value. now rewrite H.
Qed.

(** What a slice is read as lies between -15 and 255. *)
Lemma int16_slice_channel (h : string) (i : nat) (v : Z) :
  int16 (slice h i (i + 2)) = Ok v -> channel v.
Proof.
  unfold channel.
  destruct (slice_cases h i) as [E | [[a E] | [a [b E]]]]; rewrite E.
  - vm_compute. discriminate.
  - unfold int16, str1. cbn [list_ascii_of_string map].
    destruct (kind a) as [|na| |da| |] eqn:Ka; try (cbn; discriminate).
    pose proof (kind_digit_range a da Ka).
    destruct da as [|pa|pa]; cbn; intros K; injection K as <-; lia.
  - unfold int16, str2. cbn [list_ascii_of_string map].
    destruct (kind a) as [|na| |da| |] eqn:Ka;
      destruct (kind b) as [|nb| |db| |] eqn:Kb;
      try (cbn; discriminate);
      try (pose proof (kind_digit_range a da Ka));
      try (pose proof (kind_digit_range b db Kb));
      try (destruct da as [|pa|pa]); try (destruct db as [|pb|pb]);
      try (destruct na);
      cbn -[Z.mul Z.add Z.opp]; intros K; try discriminate;
      match type of K with Ok ?e = Ok _ => assert (v = e) by congruence end;
      lia.
Qed.

(** X5: Whatever code it is given, the triple [hex_to_rgb] returns has its
    three channels between -15 and 255: no length or sign check stands
    between the caller and a negative channel, and both ends are
    reached. *)
Theorem hex_to_rgb_channels (s : string) (r g b : Z) :
  hex_to_rgb s = Ok (r, g, b) ->
  channel r /\ channel g /\ channel b
  /\ hex_to_rgb "-f-f-f" = Ok (-15, -15, -15)
  /\ hex_to_rgb "ffffff" = Ok (255, 255, 255).
Proof.
  rewrite hex_to_rgb_slices. cbv zeta.
  set (h := lstrip "#"%char s).
  pose proof (int16_slice_channel h 0) as H0.
  pose proof (int16_slice_channel h 2) as H2.
  pose proof (int16_slice_channel h 4) as H4.
  simpl Nat.add in *.
  destruct (int16 (slice h 0 2)) as [r'|e]; [|discriminate].
  destruct (int16 (slice h 2 4)) as [g'|e]; [|discriminate].
  destruct (int16 (slice h 4 6)) as [b'|e]; [|discriminate].
  cbn [rbind]. intros H. injection H as <- <- <-.
  repeat split; try reflexivity;
    try (apply (H0 r' eq_refl)); try (apply (H2 g' eq_refl));
    try (apply (H4 b' eq_refl)).
Qed.

Lemma hex_to_rgb_channels_witness :
  channel 1 /\ channel (-2) /\ channel 3
  /\ hex_to_rgb "-f-f-f" = Ok (-15, -15, -15)
  /\ hex_to_rgb "ffffff" = Ok (255, 255, 255).
Proof. apply (hex_to_rgb_channels "#+1-2 3xyz" 1 (-2) 3). reflexivity. Defined.

(* --------------------------------------------------------------------- *)
(** *** Letter case                                                       *)

Lemma kind_to_case (cs : letter_case) (c : ascii) :
  kind (to_case cs c) = kind c.
Proof.
  destruct cs; destruct c as [[] [] [] [] [] [] [] []]; reflexivity.
Qed.

Lemma to_case_hash (cs : letter_case) (c : ascii) :
  Ascii.eqb (to_case cs c) "#"%char = Ascii.eqb c "#"%char.
Proof.
  destruct cs; destruct c as [[] [] [] [] [] [] [] []]; reflexivity.
Qed.

Lemma lstrip_recase (cs : letter_case) (s : string) :
  lstrip "#"%char (recase cs s) = recase cs (lstrip "#"%char s).
Proof.
  induction s as [|c s IH]; [reflexivity|].
  cbn [recase lstrip]. rewrite to_case_hash.
  destruct (Ascii.eqb c "#"%char); [exact IH | reflexivity].
Qed.

Lemma substring_recase (cs : letter_case) (s : string) (n m : nat) :
  substring n m (recase cs s) = recase cs (substring n m s).
Proof.
  revert n m. induction s as [|c s IH]; intros n m.
  - destruct n, m; reflexivity.
  - destruct n as [|n]; cbn [recase substring].
    + destruct m as [|m]; [reflexivity|]. cbn [recase]. now rewrite IH.
    + apply IH.
Qed.

Lemma kinds_recase (cs : letter_case) (s : string) :
  map kind (list_ascii_of_string (recase cs s))
  = map kind (list_ascii_of_string s).
Proof.
  induction s as [|c s IH]; [reflexivity|].
  cbn [recase list_ascii_of_string map]. now rewrite kind_to_case, IH.
Qed.

(** A slice is read alike in either case. *)
Lemma int16_recase (cs : letter_case) (x : string) :
  match int16 (recase cs x), int16 x with
  | Ok v, Ok v' => v = v'
  | Raise _, Raise _ => True
  | _, _ => False
  end.
Proof.
  unfold int16. rewrite kinds_recase.
  now destruct (parse16 (map kind (list_ascii_of_string x))).
Qed.

(** X6: The case of the letters does not matter: a code and the same code
    with its ASCII letters all put in upper case, or all in lower case,
    give the same triple, and one is refused exactly when the other
    is. *)
Theorem hex_to_rgb_any_case (cs : letter_case) (s : string) (t : rgb) :
  hex_to_rgb (recase cs s) = Ok t <-> hex_to_rgb s = Ok t.
Proof.
  unfold hex_to_rgb, slice. rewrite lstrip_recase, !substring_recase.
  set (h := lstrip "#"%char s).
  pose proof (int16_recase cs (substring 0 (2 - 0) h)) as H0.
  pose proof (int16_recase cs (substring 2 (4 - 2) h)) as H2.
  pose proof (int16_recase cs (substring 4 (6 - 4) h)) as H4.
  destruct (int16 (recase cs (substring 0 (2 - 0) h))) as [r|e],
           (int16 (substring 0 (2 - 0) h)) as [r'|e']; try contradiction;
    cbn [rbind]; [subst r'|split; discriminate].
  destruct (int16 (recase cs (substring 2 (4 - 2) h))) as [g|e],
           (int16 (substring 2 (4 - 2) h)) as [g'|e']; try contradiction;
    cbn [rbind]; [subst g'|split; discriminate].
  destruct (int16 (recase cs (substring 4 (6 - 4) h))) as [b|e],
           (int16 (substring 4 (6 - 4) h)) as [b'|e']; try contradiction;
    cbn [rbind]; [subst b'|split; discriminate].
  reflexivity.
Qed.

(* --------------------------------------------------------------------- *)
(** *** What the error names                                              *)

Lemma int16_raises_literal (x : string) :
  is_ok (int16 x) = false -> int16 x = Raise (invalid_literal x).
Proof.
  unfold int16. now destruct (parse16 (map kind (list_ascii_of_string x))).
Qed.

Lemma int16_slice_ok (h : string) (i : nat) :
  is_ok (int16 (slice h i (i + 2))) = valid_hex_slice (slice h i (i + 2)).
Proof.
  pose proof (int16_slice h i) as H.
  destruct (int16 (slice h i (i + 2))) as [v|e]; cbn [is_ok];
    [now rewrite H | now rewrite (proj1 H)].
Qed.

(** The message of the error holds the [repr] of the slice: in quotes,
    with a backslash before a backslash, and in double quotes when the
    slice holds a single quote. *)
Lemma invalid_literal_message :
  exn_msg (invalid_literal "GG") = "invalid literal for int() with base 16: 'GG'"
  /\ exn_msg (invalid_literal "\G")
     = "invalid literal for int() with base 16: '\\G'"
  /\ exn_msg (invalid_literal "G'")
     = "invalid literal for int() with base 16: "
       ++ String double_quote ("G'" ++ String double_quote EmptyString).
Proof. repeat split; reflexivity. Qed.

(** X7: The slices are read in the order red, green, blue and the first one
    that does not parse stops the conversion: the error raised is the one
    of that slice, and its message quotes that slice (the [repr] of its
    two characters at most), not the whole colour code.  With no such
    slice a triple is returned. *)
Theorem hex_to_rgb_first_bad_slice (s : string) :
  match first_bad_slice (lstrip "#"%char s) with
  | Some x => hex_to_rgb s = Raise (invalid_literal x)
  | None => exists t, hex_to_rgb s = Ok t
  end.
Proof.
  rewrite hex_to_rgb_slices. cbv zeta. unfold first_bad_slice.
  set (h := lstrip "#"%char s).
  pose proof (int16_slice_ok h 0) as K0.
  pose proof (int16_slice_ok h 2) as K2.
  pose proof (int16_slice_ok h 4) as K4.
  simpl Nat.add in *.
  destruct (valid_hex_slice (slice h 0 2)); cbn [negb].
  2:{ now rewrite (int16_raises_literal _ K0). }
  destruct (int16 (slice h 0 2)) as [r|e]; [|discriminate]. cbn [rbind].
  destruct (valid_hex_slice (slice h 2 4)); cbn [negb].
  2:{ now rewrite (int16_raises_literal _ K2). }
  destruct (int16 (slice h 2 4)) as [g|e]; [|discriminate]. cbn [rbind].
  destruct (valid_hex_slice (slice h 4 6)); cbn [negb].
  2:{ now rewrite (int16_raises_literal _ K4). }
  destruct (int16 (slice h 4 6)) as [b|e]; [|discriminate]. cbn [rbind].
  now exists (r, g, b).
Qed.

Lemma hex_to_rgb_any_case_witness : hex_to_rgb "#f8fafc" = Ok (248, 250, 252).
Proof.
  apply (proj2 (hex_to_rgb_any_case Upper "#f8fafc" (248, 250, 252))).
  reflexivity.
Defined.

(* ===================================================================== *)
(** ** Further properties of the comparison chart                         *)
(* ===================================================================== *)

Lemma exact_width_mono (t t' : Z) :
  0 <= t <= t' -> 0 <= exact_width t <= exact_width t'.
Proof.
  intros H. unfold exact_width, bar_max_width, max_tokens. split.
  - apply Z.div_pos; lia.
  - apply Z.div_le_mono; lia.
Qed.

Lemma exact_width_before_short (t t' : Z) :
  In t' float_short -> 0 <= t < t' -> exact_width t <= exact_width t' - 1.
Proof.
  intros Hin H. unfold exact_width, bar_max_width, max_tokens.
  assert (K : t * 800 / 15000 <= (t' - 1) * 800 / 15000)
    by (apply Z.div_le_mono; lia).
  simpl in Hin.
  repeat (destruct Hin as [<- | Hin]; [exact K|]). destruct Hin.
Qed.

Lemma bar_width_order (t t' : Z) :
  0 <= t <= t' -> t' <= max_tokens ->
  exists w w', bar_width t = Ok w /\ bar_width t' = Ok w'
               /\ 0 <= w <= w' /\ w' <= bar_max_width.
Proof.
  intros H H'.
  destruct (bar_width_exact t) as (w & E & C); [lia|].
  destruct (bar_width_exact t') as (w' & E' & C'); [lia|].
  exists w, w'. split; [exact E|]. split; [exact E'|].
  pose proof (exact_width_mono t t' H) as M.
  assert (M' : 0 <= exact_width t' <= exact_width max_tokens)
    by (apply exact_width_mono; lia).
  change (exact_width max_tokens) with bar_max_width in M'.
  assert (W0 : 0 <= w).
  { destruct C as [-> | [Hin ->]]; [lia|].
    pose proof (exact_width_before_short 0 t Hin) as K.
    simpl in Hin.
    assert (0 < t) by
      (repeat (destruct Hin as [<- | Hin]; [lia|]); destruct Hin).
    change (exact_width 0) with 0 in K. lia. }
  destruct C' as [-> | [Hin' ->]].
  - destruct C as [-> | [_ ->]]; lia.
  - destruct (Z.eq_dec t t') as [-> | N].
    + rewrite E in E'. injection E' as ->. lia.
    + pose proof (exact_width_before_short t t' Hin') as K.
      destruct C as [-> | [_ ->]]; lia.
Qed.

(** X8: For counts between 0 and the maximum the bar never leaves its track
    and never gets shorter when the count grows: the width is between 0
    and the width of the track, and a larger count gives a bar at least as
    wide. *)
Theorem bar_width_monotone (t t' : Z) :
  0 <= t <= t' -> t' <= max_tokens ->
  exists w w', bar_width t = Ok w /\ bar_width t' = Ok w'
               /\ 0 <= w <= w' /\ w' <= bar_max_width.
Proof. apply bar_width_order. Qed.

Lemma bar_width_monotone_witness :
  exists w w', bar_width 5000 = Ok w /\ bar_width 10000 = Ok w'
               /\ 0 <= w <= w' /\ w' <= bar_max_width.
Proof. apply (bar_width_monotone 5000 10000); unfold max_tokens; lia. Defined.

Lemma rect_boxes_app (a b : list draw_op) :
  rect_boxes (a ++ b) = (rect_boxes a ++ rect_boxes b)%list.
Proof.
  induction a as [|op a IH]; [reflexivity|].
  destruct op; simpl; now rewrite IH.
Qed.

Lemma hex_track : hex_to_rgb "#1E293B" = Ok (30, 41, 59).
Proof. reflexivity. Qed.

Lemma hex_edge : hex_to_rgb "#334155" = Ok (51, 65, 85).
Proof. reflexivity. Qed.

Lemma rect_boxes_text (img : image) (xy : Z * Z) (txt : string) (c : rgb)
      (fnt : option font) :
  rect_boxes (im_ops (draw_text img xy txt c fnt)) = rect_boxes (im_ops img).
Proof.
  unfold draw_text, draw. cbn [im_ops]. rewrite rect_boxes_app.
  simpl. apply app_nil_r.
Qed.

Lemma rect_boxes_rect (img : image) (box : bbox) (fill outline : option rgb)
      (width : Z) :
  rect_boxes (im_ops (draw img (DrawRectangle box fill outline width)))
  = (rect_boxes (im_ops img) ++ [box])%list.
Proof. unfold draw. cbn [im_ops]. now rewrite rect_boxes_app. Qed.

(** X9: The chart loop on rows it can draw: it returns, and for each row, in
    order, it has drawn a track 800 wide and 80 high, 120 below the track
    of the row before, and over it a bar that starts at the left end of
    the track and is as wide as the count asks, so that the bar stays
    inside the track and no two rows overlap. *)
Theorem chart_rows_layout (font_label font_num : option font)
        (data : list (string * Z * string * string)) (i : Z) (img : image) :
  Forall row_ok data ->
  exists img',
    chart_rows font_label font_num data i img = Ok img'
    /\ rect_boxes (im_ops img')
       = (rect_boxes (im_ops img) ++ expected_rects data i)%list
    /\ Forall (fun row => 0 <= bar_px (snd (fst (fst row))) <= 800) data.
Proof.
  intros F. revert i img.
  induction F as [|[[[name tokens] color] cost] data [Ht Hc] F IH];
    intros i img.
  - exists img. cbn [chart_rows expected_rects]. rewrite app_nil_r.
    repeat split. constructor.
  - destruct (bar_width_order tokens tokens) as (w & w' & E & _ & B & B');
      [lia | lia |].
    assert (Hw : 0 <= w <= 800) by (unfold bar_max_width in B'; lia).
    destruct (hex_to_rgb color) as [c|e] eqn:Ec; [|discriminate].
    cbn [chart_rows]. cbv zeta. rewrite E, hex_text, hex_track, hex_edge, Ec.
    cbn [rbind].
    match goal with
    | |- context [chart_rows font_label font_num data (i + 1) ?im] =>
        destruct (IH (i + 1) im) as (img' & E' & R & B0)
    end.
    exists img'. split; [exact E'|]. split.
    + rewrite R. rewrite !rect_boxes_text, !rect_boxes_rect, rect_boxes_text.
      rewrite <- !app_assoc. cbn [expected_rects app].
      unfold bar_px. rewrite E.
      unfold chart_start_y, chart_gap, bar_max_width, bar_height.
      reflexivity.
    + constructor; [|exact B0]. cbn [fst snd]. unfold bar_px. now rewrite E.
Qed.

Lemma chart_rows_layout_witness :
  exists img',
    chart_rows None None chart_data 0 (blank_image RESOLUTION (0, 0, 0))
    = Ok img'
    /\ rect_boxes (im_ops img')
       = (rect_boxes (im_ops (blank_image RESOLUTION (0, 0, 0)))
            ++ expected_rects chart_data 0)%list
    /\ Forall (fun row => 0 <= bar_px (snd (fst (fst row))) <= 800) chart_data.
Proof.
  apply (chart_rows_layout None None chart_data 0).
  repeat constructor; vm_compute; congruence.
Defined.

(* ===================================================================== *)
(** ** Further properties of the terminal scene                           *)
(* ===================================================================== *)

(** X10: The colour of a blank entry is never read: the loop over the entries
    returns exactly when every entry that is not blank has a colour that
    parses.  A blank entry may carry any colour, also the empty one that
    the scene gives it and that no conversion accepts. *)
Theorem terminal_lines_returns_iff (fnt : option font)
        (cmds : list (string * string)) (x y : Z) (img : image) :
  (exists r, terminal_lines fnt cmds x y img = Ok r)
  <-> forallb entry_ok cmds = true.
Proof.
  revert y img. induction cmds as [|[txt color] cmds IH]; intros y img.
  - split; [reflexivity | intros _; eexists; reflexivity].
  - cbn [terminal_lines forallb]. unfold entry_ok at 1. cbn [fst snd].
    destruct (truthy txt); cbn [negb orb].
    + destruct (hex_to_rgb color) as [c|e]; cbn [rbind is_ok andb].
      * apply IH.
      * split; [intros [r H]; discriminate | discriminate].
    + apply IH.
Qed.

Lemma terminal_lines_returns_iff_witness :
  (exists r, terminal_lines None [("", ""); ("$ ", "#6CC644")] 40 80
                            (blank_image RESOLUTION (0, 0, 0)) = Ok r)
  /\ ~ (exists r, terminal_lines None [("$ ", "")] 40 80
                                 (blank_image RESOLUTION (0, 0, 0)) = Ok r).
Proof.
  split.
  - apply (proj2 (terminal_lines_returns_iff None
                    [("", ""); ("$ ", "#6CC644")] 40 80 _)).
    reflexivity.
  - intros H.
    apply (proj1 (terminal_lines_returns_iff None [("$ ", "")] 40 80 _)) in H.
    discriminate.
Defined.

(** X11: Where the loop draws: the entries that are not blank, in the order of
    the list, the first at the starting height and each one pitch below
    the one before; and the cursor ends one pitch below the last text
    drawn. *)
Theorem terminal_lines_rows (fnt : option font)
        (cmds : list (string * string)) (x y : Z) (img : image) :
  forallb entry_ok cmds = true ->
  exists img',
    terminal_lines fnt cmds x y img = Ok (img', y + line_pitch * shown cmds)
    /\ text_rows (im_ops img')
       = (text_rows (im_ops img)
            ++ combine (shown_texts cmds)
                       (positions (List.length (shown_texts cmds)) y
                                  line_pitch))%list.
Proof.
  revert y img. induction cmds as [|[txt color] cmds IH]; intros y img H.
  - exists img. unfold shown, shown_texts. cbn. rewrite app_nil_r.
    split; [f_equal; f_equal; lia | reflexivity].
  - cbn [forallb] in H. apply andb_prop in H. destruct H as [H1 H].
    unfold entry_ok in H1. cbn [fst snd] in H1.
    cbn [terminal_lines]. unfold shown, shown_texts in *. cbn [filter fst].
    destruct (truthy txt); cbn [negb orb] in H1.
    + destruct (hex_to_rgb color) as [c|e]; [|discriminate]. cbn [rbind].
      destruct (IH (y + line_pitch) (draw_text img (x, y) txt c fnt) H)
        as (img' & E & R).
      exists img'. split.
      * rewrite E. f_equal. f_equal. cbn [List.length]. lia.
      * rewrite R. unfold draw_text, draw. cbn [im_ops].
        rewrite text_rows_app, <- app_assoc. reflexivity.
    + destruct (IH y img H) as (img' & E & R). exists img'. now split.
Qed.

Lemma terminal_lines_rows_witness :
  exists img',
    terminal_lines None commands 40 80 (blank_image RESOLUTION (0, 0, 0))
    = Ok (img', 80 + line_pitch * shown commands)
    /\ text_rows (im_ops img')
       = (text_rows (im_ops (blank_image RESOLUTION (0, 0, 0)))
            ++ combine (shown_texts commands)
                       (positions (List.length (shown_texts commands)) 80
                                  line_pitch))%list.
Proof. apply (terminal_lines_rows None commands 40 80). reflexivity. Defined.

(* ===================================================================== *)
(** ** Further properties of the chat scene                               *)
(* ===================================================================== *)

Lemma split_nonempty (sep : ascii) (s : string) : split sep s <> [].
Proof.
  destruct s as [|c s]; [discriminate|]. cbn [split].
  destruct (Ascii.eqb c sep); [discriminate|].
  destruct (split sep s); discriminate.
Qed.

Lemma split_length (sep : ascii) (s : string) :
  List.length (split sep s) = S (occurrences sep s).
Proof.
  induction s as [|c s IH]; [reflexivity|]. cbn [split occurrences].
  destruct (Ascii.eqb c sep); cbn [List.length]; [now rewrite IH|].
  destruct (split sep s) as [|p rest]; [discriminate|]. exact IH.
Qed.

Lemma join_cons (sep p : string) (pieces : list string) :
  pieces <> [] -> join sep (p :: pieces) = p ++ sep ++ join sep pieces.
Proof. destruct pieces; [contradiction | reflexivity]. Qed.

Lemma join_head (sep : string) (c : ascii) (p : string)
      (rest : list string) :
  join sep (String c p :: rest) = String c (join sep (p :: rest)).
Proof. destruct rest; reflexivity. Qed.

Lemma join_split (sep : ascii) (s : string) :
  join (String sep EmptyString) (split sep s) = s.
Proof.
  induction s as [|c s IH]; [reflexivity|]. cbn [split].
  pose proof (split_nonempty sep s) as K.
  destruct (Ascii.eqb_spec c sep) as [->|N].
  - rewrite (join_cons _ _ _ K), IH. reflexivity.
  - destruct (split sep s) as [|p rest]; [contradiction|].
    now rewrite join_head, IH.
Qed.

Lemma texts_at_positions (lines : list string) (start step : Z) :
  map fst (combine lines (positions (List.length lines) start step)) = lines.
Proof.
  revert start. induction lines as [|l lines IH]; intros start;
    [reflexivity|].
  cbn [List.length positions combine map fst]. now rewrite IH.
Qed.

(** The inner loop of a bubble always returns, having drawn the lines in
    order, the first at the given height and each 30 below the one
    before. *)
Lemma bubble_lines_rows (fnt : option font) (lines : list string)
      (x text_y : Z) (img : image) :
  exists img',
    bubble_lines fnt lines x text_y img = Ok img'
    /\ text_rows (im_ops img')
       = (text_rows (im_ops img)
            ++ combine lines (positions (List.length lines) text_y
                                        line_height))%list
    /\ bubble_spans (im_ops img') = bubble_spans (im_ops img).
Proof.
  revert text_y img. induction lines as [|line lines IH]; intros text_y img.
  - exists img. cbn. rewrite app_nil_r. repeat split.
  - cbn [bubble_lines]. rewrite hex_text. cbn [rbind].
    destruct (IH (text_y + line_height)
                 (draw_text img (x, text_y) line (248, 250, 252) fnt))
      as (img' & E & R & S).
    exists img'. split; [exact E|]. split.
    + rewrite R. unfold draw_text, draw. cbn [im_ops].
      rewrite text_rows_app, <- app_assoc. reflexivity.
    + rewrite S. unfold draw_text, draw. cbn [im_ops].
      rewrite bubble_spans_app. simpl. apply app_nil_r.
Qed.

(** X12: No part of a message is lost: whatever the messages are, the chat
    loop returns, and the texts it has drawn are, message after message,
    the pieces of the message between its newline characters, in order;
    put together again with newlines, the pieces of a message give the
    message back. *)
Theorem chat_bubbles_texts (fnt : option font) (msgs : list (role * string))
        (y : Z) (img : image) :
  (exists img' y',
     chat_bubbles fnt msgs y img = Ok (img', y')
     /\ map fst (text_rows (im_ops img'))
        = (map fst (text_rows (im_ops img))
             ++ flat_map (fun m => split "010"%char (snd m)) msgs)%list)
  /\ Forall (fun m => join nl (split "010"%char (snd m)) = snd m) msgs.
Proof.
  split.
  - revert y img. induction msgs as [|[r content] msgs IH]; intros y img.
    + exists img, y. cbn. rewrite app_nil_r. split; reflexivity.
    + cbn [chat_bubbles]. cbv zeta.
      assert (K : forall box_x color c,
                 hex_to_rgb color = Ok c ->
                 exists img' y',
                   (c0 <- hex_to_rgb color ;;
                    (let img0 :=
                       draw img
                         (DrawRoundedRectangle
                            (box_x, y, box_x + max_width,
                             y + box_height (split "010"%char content))
                            12 (Some c0)) in
                     img1 <- bubble_lines fnt (split "010"%char content)
                               (box_x + padding) (y + padding) img0 ;;
                     chat_bubbles fnt msgs
                       (y + (box_height (split "010"%char content)
                             + bubble_gap)) img1))
                   = Ok (img', y')
                   /\ map fst (text_rows (im_ops img'))
                      = (map fst (text_rows (im_ops img))
                           ++ flat_map (fun m => split "010"%char (snd m))
                                       ((r, content) :: msgs))%list).
      { intros box_x color c Hc. rewrite Hc. cbn [rbind]. cbv zeta.
        match goal with
        | |- context [bubble_lines fnt ?l ?bx ?ty ?i] =>
            destruct (bubble_lines_rows fnt l bx ty i) as (img1 & E & R & _)
        end.
        rewrite E. cbn [rbind].
        match goal with
        | |- context [chat_bubbles fnt msgs ?yy img1] =>
            destruct (IH yy img1) as (img' & y' & E' & R')
        end.
        exists img', y'. split; [exact E'|].
        rewrite R', R. unfold draw. cbn [im_ops]. rewrite text_rows_app.
        cbn [text_rows]. rewrite app_nil_r, !map_app.
        cbn [flat_map snd]. rewrite <- app_assoc. f_equal. f_equal.
        apply texts_at_positions. }
      destruct r.
      * apply (K _ _ _ hex_primary).
      * apply (K _ _ _ hex_slate).
  - apply Forall_forall. intros m _. apply join_split.
Qed.

Lemma bubble_height_newlines (m : role * string) :
  bubble_height m = 60 + 30 * Z.of_nat (occurrences "010"%char (snd m)).
Proof. unfold bubble_height, line_count. rewrite split_length. lia. Qed.

Lemma expected_spans_heights (msgs : list (role * string)) (y : Z) :
  map (fun sp => snd sp - fst sp) (expected_spans msgs y)
  = map bubble_height msgs.
Proof.
  revert y. induction msgs as [|m msgs IH]; intros y; [reflexivity|].
  cbn [expected_spans map fst snd]. rewrite IH. f_equal. lia.
Qed.

Lemma expected_spans_gaps (msgs : list (role * string)) (y : Z) :
  Forall (fun g => g = 25) (gaps (expected_spans msgs y)).
Proof.
  revert y. induction msgs as [|m msgs IH]; intros y; [constructor|].
  cbn [expected_spans]. specialize (IH (y + bubble_height m + 25)).
  destruct msgs as [|m' msgs]; [constructor|].
  cbn [expected_spans gaps] in *. constructor; [lia | exact IH].
Qed.

(** X13: Bubbles never touch: on an image without bubbles, whatever the
    messages are, the chat loop returns with one bubble per message, in
    order; a bubble is 60 high plus 30 for every newline character of its
    message; and every bubble starts 25 below the bottom of the one
    before. *)
Theorem chat_bubbles_spacing (fnt : option font)
        (msgs : list (role * string)) (y : Z) (img : image) :
  bubble_spans (im_ops img) = [] ->
  exists img' y',
    chat_bubbles fnt msgs y img = Ok (img', y')
    /\ map (fun sp => snd sp - fst sp) (bubble_spans (im_ops img'))
       = map (fun m => 60 + 30 * Z.of_nat (occurrences "010"%char (snd m)))
             msgs
    /\ Forall (fun g => g = 25) (gaps (bubble_spans (im_ops img'))).
Proof.
  intros H. destruct (chat_bubbles_layout fnt msgs y img) as (img' & E & S).
  rewrite H in S. cbn [app] in S.
  exists img', (y + sum (map (fun m => bubble_height m + 25) msgs)).
  split; [exact E|]. rewrite S. split.
  - rewrite expected_spans_heights. apply map_ext, bubble_height_newlines.
  - apply expected_spans_gaps.
Qed.

Lemma chat_bubbles_spacing_witness :
  exists img' y',
    chat_bubbles None messages 120 (blank_image RESOLUTION (0, 0, 0))
    = Ok (img', y')
    /\ map (fun sp => snd sp - fst sp) (bubble_spans (im_ops img'))
       = map (fun m => 60 + 30 * Z.of_nat (occurrences "010"%char (snd m)))
             messages
    /\ Forall (fun g => g = 25) (gaps (bubble_spans (im_ops img'))).
Proof.
  apply (chat_bubbles_spacing None messages 120). reflexivity.
Defined.

(* ===================================================================== *)
(** ** Further properties of the text scenes                              *)
(* ===================================================================== *)


Section TextScenes.

Variable env : Env.





End TextScenes.



(* ===================================================================== *)
(** ** Further properties of the run                                      *)
(* ===================================================================== *)



(** X18: The handler catches [Exception] only.  When what the pipeline raises
    does not derive from it (an interrupt from the keyboard, an exit
    request), the handler does not run: nothing is reported, the process
    does not end through the handler's exit with status 1, and the
    exception leaves the script. *)
Theorem interrupt_not_caught :
  (forall body e out,
     body [] = (Raise e, out) ->
     derives_from_Exception (exn_cls e) = false ->
     guarded body = (Uncaught e, out))
  /\ (forall env e,
        encoder_error env output_path = Some e ->
        derives_from_Exception (exn_cls e) = false ->
        fst (main env) = Uncaught e
        /\ handler_runs (snd (main env)) = 0%nat).
Proof.
  split; [exact guarded_not_caught|].
  intros env e H D. destruct (main_run env) as [final ->]. rewrite H, D.
  split; reflexivity.
Qed.

Lemma interrupt_not_caught_witness :
  fst (main env_interrupted) = Uncaught (mkExn KeyboardInterrupt "")
  /\ handler_runs (snd (main env_interrupted)) = 0%nat.
Proof.
  apply (proj2 interrupt_not_caught env_interrupted); reflexivity.
Defined.

(* ===================================================================== *)
(** ** Further properties of the token labels                             *)
(* ===================================================================== *)











Lemma bubble_sides_app (a b : list draw_op) :
  bubble_sides (a ++ b) = (bubble_sides a ++ bubble_sides b)%list.
Proof.
  induction a as [|op a IH]; [reflexivity|].
  destruct op as [| | |[[[x0 y0] x1] y1] r fl]; simpl; now rewrite IH.
Qed.

Lemma bubble_lines_sides (fnt : option font) (lines : list string)
      (x text_y : Z) (img : image) :
  exists img', bubble_lines fnt lines x text_y img = Ok img'
               /\ bubble_sides (im_ops img') = bubble_sides (im_ops img).
Proof.
  revert text_y img. induction lines as [|line lines IH]; intros text_y img.
  - exists img. split; reflexivity.
  - cbn [bubble_lines]. rewrite hex_text. cbn [rbind].
    destruct (IH (text_y + line_height)
                 (draw_text img (x, text_y) line (248, 250, 252) fnt))
      as (img' & E & S).
    exists img'. split; [exact E|]. rewrite S.
    unfold draw_text, draw. cbn [im_ops]. rewrite bubble_sides_app.
    simpl. apply app_nil_r.
Qed.

(** X14: Who speaks decides the side: whatever the messages are, every bubble
    is 700 wide and lies inside the frame; the bubbles of the user are on
    the right (from 1140 to 1840), those of the assistant on the left
    (from 80 to 780), in the order of the messages. *)
Theorem chat_bubbles_sides (fnt : option font) (msgs : list (role * string))
        (y : Z) (img : image) :
  exists img' y',
    chat_bubbles fnt msgs y img = Ok (img', y')
    /\ bubble_sides (im_ops img')
       = (bubble_sides (im_ops img) ++ map (fun m => side_of (fst m)) msgs)%list
    /\ Forall (fun m => snd (side_of (fst m)) - fst (side_of (fst m)) = 700
                        /\ 0 <= fst (side_of (fst m))
                        /\ snd (side_of (fst m)) <= fst RESOLUTION) msgs.
Proof.
  assert (F : Forall (fun m : role * string =>
                        snd (side_of (fst m)) - fst (side_of (fst m)) = 700
                        /\ 0 <= fst (side_of (fst m))
                        /\ snd (side_of (fst m)) <= fst RESOLUTION) msgs).
  { apply Forall_forall. intros [[] content] _; cbn; lia. }
  revert y img. induction msgs as [|[r content] msgs IH]; intros y img.
  - exists img, y. cbn. rewrite app_nil_r. repeat split. constructor.
  - inversion F as [|m ms Fm F']; subst.
    cbn [chat_bubbles]. cbv zeta.
    destruct r; cbv iota beta; [rewrite hex_primary | rewrite hex_slate];
      cbn [rbind];
      match goal with
      | |- context [bubble_lines fnt ?l ?bx ?ty ?i] =>
          destruct (bubble_lines_sides fnt l bx ty i) as (img1 & E & S)
      end;
      rewrite E; cbn [rbind];
      match goal with
      | |- context [chat_bubbles fnt msgs ?yy ?i1] =>
          destruct (IH F' yy i1) as (img' & y' & E' & S' & _)
      end;
      exists img', y'; (split; [exact E'|]); (split; [|exact F]);
      rewrite S', S; unfold draw; cbn [im_ops];
      rewrite bubble_sides_app, <- app_assoc; reflexivity.
Qed.


